(** * go-cli-healthchecker: the [check] command (cmd/check.go)

    A shallow embedding of [runCheck], [checkEndpoint] and [printResult],
    and the properties of the probe and of the dispatch loop.

    - Sequential code ([checkEndpoint], the prologue of [runCheck]) is
      written in a small state monad over a [World] that holds what the
      code can observe of its environment: the monotonic clock, the
      response bodies that are still open, standard output and the
      network.
    - The fan-out of [runCheck] (one goroutine per endpoint, joined by a
      [sync.WaitGroup]) is a step relation over the program counters of
      the main goroutine and of the probe goroutines; every interleaving
      of the goroutines is a path of that relation. *)

From stdpp Require Import base gmap sets list strings pretty relations.
From Stdlib Require Import ZArith Lia.

Open Scope string_scope.
Open Scope Z_scope.

(** ** Data model *)

(** Go's [error] interface, identified with the message it carries;
    [nil] is [None] in a field of type [option error]. *)
Definition error := string.

(** [type Endpoint struct { Name string; URL string }] *)
Record Endpoint := mkEndpoint {
  Name : string;
  URL : string;
}.

(** [time.Duration]: a count of nanoseconds. *)
Definition Duration := Z.

Definition Second : Duration := 1000000000.

(** [type HealthResult struct]; a field left out of a composite literal
    has its zero value ([0], [false], [nil]). *)
Record HealthResult := mkHealthResult {
  Endpoint_of : Endpoint;
  IsHealthy : bool;
  StatusCode : Z;
  Duration_of : Duration;
  Error : option error;
}.

(** The package-level flag variables, set by cobra before [runCheck] is
    entered and only read afterwards. *)
Record Flags := mkFlags {
  timeout : Z;
  urls : list string;
  verbose : bool;
}.

(** Go's [int] and [int64] on the supported 64-bit targets: arithmetic
    wraps around modulo 2^64 into the signed range. *)
Definition wrap64 (z : Z) : Z :=
  (z + 2 ^ 63) mod 2 ^ 64 - 2 ^ 63.

(** ** The environment *)

(** The part of [*http.Response] the program uses: the status code (the
    three digits of the status line as an [int]; net/http asks for three
    digits and nothing more, so 000 to 999) and the body, a handle that
    stays open until it is closed. *)
Record Response := mkResponse {
  resp_StatusCode : Z;
  resp_Body : nat;
}.

(** What [client.Get] hands back.  net/http returns a non-nil response
    with an open body exactly when [err == nil]; with [err != nil] the
    response is to be ignored and holds no open body. *)
Inductive GetResult :=
  | GetOK (resp : Response)
  | GetFail (err : error).

(** [http.Client{Timeout: ...}] *)
Record Client := mkClient {
  client_Timeout : Duration;
}.

(** How the network answers one request: after [latency] nanoseconds,
    with the status line of a response or with a transport failure
    (timeout expiry, refused connection, malformed URL, failed name
    resolution, ...). *)
Inductive Reply :=
  | Responded (code : Z)
  | Failed (err : error).

Record Answer := mkAnswer {
  latency : Z;
  reply : Reply;
}.

(** One value handed to [fmt.Println] or [fmt.Printf]. *)
Inductive Arg :=
  | AString (s : string)
  | AInt (z : Z)
  | ADuration (d : Duration)
  | AError (e : error).

(** One call of the [fmt] package on standard output; the formatting
    verbs are kept as written and not expanded. *)
Inductive Output :=
  | Println (args : list Arg)
  | Printf (format : string) (args : list Arg).

(** The environment of the program.  [network] answers the [n]-th
    request of the run from its URL, the client's timeout and the time
    at which it is issued, so that any behaviour of the servers can be
    scripted.  Time is charged to the network only: the clock moves when
    a caller is woken by the answer to its request, and local
    computation and printing take no time. *)
Record World := mkWorld {
  clock : Z;
  requests : nat;
  open_bodies : gset nat;
  stdout : list Output;
  network : nat -> string -> Duration -> Z -> Answer;
}.

(** ** A state monad over the environment *)

Definition IO (A : Type) : Type := World -> A * World.

Definition ret {A} (a : A) : IO A := fun w => (a, w).

Definition bind {A B} (m : IO A) (k : A -> IO B) : IO B :=
  fun w => let '(a, w') := m w in k a w'.

Notation "x <- m ;; k" := (bind m (fun x => k))
  (at level 100, m at next level, right associativity).
Notation "m ;;; k" := (bind m (fun _ => k))
  (at level 100, right associativity).

(** [time.Now()]: a reading of the monotonic clock. *)
Definition time_Now : IO Z :=
  fun w => (clock w, w).

(** [time.Since(start)]: the difference of two readings of the monotonic
    clock (Go saturates it at about 292 years, out of reach here). *)
Definition time_Since (start : Z) : IO Duration :=
  fun w => (clock w - start, w).

(** A request in flight: its number in the run (which also names the
    body of its response), the time at which its answer is in, and the
    answer. *)
Record InFlight := mkInFlight {
  fl_index : nat;
  fl_done_at : Z;
  fl_reply : Reply;
}.

(** The first half of [client.Get(url)]: the request goes out, and the
    network settles how and when it will be answered. *)
Definition client_Get_send (c : Client) (url : string) : IO InFlight :=
  fun w =>
    let a := network w (requests w) url (client_Timeout c) (clock w) in
    (mkInFlight (requests w) (clock w + Z.max 0 (latency a)) (reply a),
     mkWorld (clock w) (S (requests w)) (open_bodies w) (stdout w)
             (network w)).

(** The second half: the caller is blocked until the answer is in; a
    response comes with its body open. *)
Definition client_Get_wait (p : InFlight) : IO GetResult :=
  fun w =>
    let t := Z.max (clock w) (fl_done_at p) in
    match fl_reply p with
    | Responded code =>
        (GetOK (mkResponse code (fl_index p)),
         mkWorld t (requests w) ({[ fl_index p ]} ∪ open_bodies w)
                 (stdout w) (network w))
    | Failed e =>
        (GetFail e,
         mkWorld t (requests w) (open_bodies w) (stdout w) (network w))
    end.

(** [client.Get(url)] *)
Definition client_Get (c : Client) (url : string) : IO GetResult :=
  p <- client_Get_send c url ;;
  client_Get_wait p.

(** [resp.Body.Close()] *)
Definition Body_Close (resp : Response) : IO unit :=
  fun w =>
    (tt, mkWorld (clock w) (requests w) (open_bodies w ∖ {[ resp_Body resp ]})
                 (stdout w) (network w)).

(** One call of [fmt.Println] / [fmt.Printf]. *)
Definition fmt_out (o : Output) : IO unit :=
  fun w =>
    (tt, mkWorld (clock w) (requests w) (open_bodies w)
                 (stdout w ++ [o]) (network w)).

(** ** checkEndpoint (check.go, lines 107-135) *)

Definition checkEndpoint (f : Flags) (endpoint : Endpoint) : IO HealthResult :=
  start <- time_Now ;;
  let client := mkClient (wrap64 (timeout f * Second)) in
  got <- client_Get client (URL endpoint) ;;
  duration <- time_Since start ;;
  match got with
  | GetFail err =>
      ret {| Endpoint_of := endpoint;
             IsHealthy := false;
             StatusCode := 0;
             Duration_of := duration;
             Error := Some err |}
  | GetOK resp =>
      (* [defer resp.Body.Close()] runs once the result is built,
         before the function returns. *)
      let isHealthy :=
        (200 <=? resp_StatusCode resp) && (resp_StatusCode resp <? 400) in
      let result :=
        {| Endpoint_of := endpoint;
           IsHealthy := isHealthy;
           StatusCode := resp_StatusCode resp;
           Duration_of := duration;
           Error := None |} in
      Body_Close resp ;;;
      ret result
  end.

(** The two halves of [checkEndpoint] around the point where it blocks
    (line 114): up to the sending of the request, and from the arrival of
    the answer on.  Other goroutines run in between. *)
Definition checkEndpoint_send (f : Flags) (endpoint : Endpoint)
  : IO (Z * InFlight) :=
  start <- time_Now ;;
  let client := mkClient (wrap64 (timeout f * Second)) in
  p <- client_Get_send client (URL endpoint) ;;
  ret (start, p).

Definition checkEndpoint_wait (endpoint : Endpoint) (start : Z) (p : InFlight)
  : IO HealthResult :=
  got <- client_Get_wait p ;;
  duration <- time_Since start ;;
  match got with
  | GetFail err =>
      ret {| Endpoint_of := endpoint;
             IsHealthy := false;
             StatusCode := 0;
             Duration_of := duration;
             Error := Some err |}
  | GetOK resp =>
      let isHealthy :=
        (200 <=? resp_StatusCode resp) && (resp_StatusCode resp <? 400) in
      let result :=
        {| Endpoint_of := endpoint;
           IsHealthy := isHealthy;
           StatusCode := resp_StatusCode resp;
           Duration_of := duration;
           Error := None |} in
      Body_Close resp ;;;
      ret result
  end.

(** ** printResult (check.go, lines 137-153) *)

Definition printResult (result : HealthResult) : list Output :=
  let status :=
    if negb (IsHealthy result) then "✗ UNHEALTHY" else "✓ HEALTHY" in
  [ Printf "%s [%s]\n" [AString status; AString (Name (Endpoint_of result))];
    Printf "  URL: %s\n" [AString (URL (Endpoint_of result))] ]
  ++ match Error result with
     | Some e => [ Printf "  Error: %v\n" [AError e] ]
     | None =>
         [ Printf "  Status: %d\n" [AInt (StatusCode result)];
           Printf "  Response Time: %v\n" [ADuration (Duration_of result)] ]
     end
  ++ [ Println [] ].

(** ** runCheck (check.go, lines 59-105) *)

(** [fmt.Sprintf("Custom-%d", n)] *)
Definition Sprintf_Custom (n : nat) : string :=
  "Custom-" +:+ pretty n.

(** Lines 74-79: [for i, url := range urls { endpoints = append(...) }],
    entered with index [i] and the slice built so far. *)
Fixpoint range_urls (i : nat) (us : list string) (endpoints : list Endpoint)
  : list Endpoint :=
  match us with
  | [] => endpoints
  | url :: rest =>
      range_urls (S i) rest
        (endpoints ++ [ {| Name := Sprintf_Custom (i + 1); URL := url |} ])
  end.

Definition default_endpoints : list Endpoint :=
  [ {| Name := "Github API"; URL := "https://api.github.com" |};
    {| Name := "JSONPlaceholder";
       URL := "https://jsonplaceholder.typicode.com/posts/1" |};
    {| Name := "Dog Breeds API";
       URL := "https://dog.ceo/api/breeds/list/all" |} ].

(** Lines 70-87: custom URLs if provided, otherwise the defaults. *)
Definition build_endpoints (f : Flags) : list Endpoint :=
  if (0 <? length (urls f))%nat
  then range_urls 0 (urls f) []
  else default_endpoints.

Definition rule : string := "━━━━━━━━━━━━━━━━━━━━━━━".

(** Lines 60-68: the banner, the diagnostic line of [--verbose], and the
    reading of the clock the total is measured from. *)
Definition prologue (f : Flags) : IO Z :=
  fmt_out (Println [AString "Health Checker v0.1"]) ;;;
  fmt_out (Println [AString rule]) ;;;
  (if verbose f
   then fmt_out (Printf "⚙️ Timeout: %ds\n" [AInt (timeout f)])
   else ret tt) ;;;
  fmt_out (Println []) ;;;
  time_Now.

(** *** The dispatch loop (lines 89-104) as a transition system *)

(** Where a probe goroutine [go func(ep Endpoint) {...}(endpoint)] is. *)
Inductive GPC :=
  | GCall
      (* started; [checkEndpoint(ep)] not yet called *)
  | GAwait (start : Z) (p : InFlight)
      (* inside [checkEndpoint(ep)], blocked in [client.Get] *)
  | GPrint (result : HealthResult) (pending : list Output)
      (* inside [printResult(result)], with these calls still to make *)
  | GExit.
      (* the deferred [wg.Done()] has run *)

Record Goroutine := mkGoroutine {
  g_ep : Endpoint;
  g_pc : GPC;
}.

(** Where the main goroutine is. *)
Inductive MainPC :=
  | MLoop (rest : list Endpoint)
      (* line 91, with these endpoints still to range over *)
  | MGo (ep : Endpoint) (rest : list Endpoint)
      (* [wg.Add(1)] done, the [go] statement of line 94 is next *)
  | MWait
      (* line 101, [wg.Wait()] *)
  | MRule
      (* line 103 *)
  | MSummary
      (* line 104 *)
  | MReturned.

(** The state of a run.  [calls] and [surfaced] are history variables:
    the arguments of the calls of [checkEndpoint] made so far, and the
    results whose [printResult] has returned, in the order in which that
    happened. *)
Record State := mkState {
  world : World;
  wg : Z;
  main : MainPC;
  goroutines : list Goroutine;
  m_start : Z;
  m_endpoints : list Endpoint;
  calls : list Endpoint;
  surfaced : list HealthResult;
}.

(** The dispatch loop is entered with an empty wait group and no
    goroutine. *)
Definition dispatch_init (start : Z) (endpoints : list Endpoint) (w : World)
  : State :=
  {| world := w; wg := 0; main := MLoop endpoints; goroutines := [];
     m_start := start; m_endpoints := endpoints;
     calls := []; surfaced := [] |}.

Definition runCheck_init (f : Flags) (w : World) : State :=
  let '(start, w1) := prologue f w in
  dispatch_init start (build_endpoints f) w1.

(** One step of the main goroutine; [None] when it cannot move (blocked
    in [wg.Wait()], or returned). *)
Definition step_main (s : State) : option State :=
  match main s with
  | MLoop [] =>
      Some (mkState (world s) (wg s) MWait (goroutines s)
                    (m_start s) (m_endpoints s) (calls s) (surfaced s))
  | MLoop (ep :: rest) =>
      (* wg.Add(1) *)
      Some (mkState (world s) (wg s + 1) (MGo ep rest) (goroutines s)
                    (m_start s) (m_endpoints s) (calls s) (surfaced s))
  | MGo ep rest =>
      (* go func(ep Endpoint) {...}(endpoint) *)
      Some (mkState (world s) (wg s) (MLoop rest)
                    (goroutines s ++ [mkGoroutine ep GCall])
                    (m_start s) (m_endpoints s) (calls s) (surfaced s))
  | MWait =>
      (* wg.Wait() returns once the counter is zero *)
      if wg s =? 0
      then Some (mkState (world s) (wg s) MRule (goroutines s)
                         (m_start s) (m_endpoints s) (calls s) (surfaced s))
      else None
  | MRule =>
      let '(_, w) := fmt_out (Println [AString rule]) (world s) in
      Some (mkState w (wg s) MSummary (goroutines s)
                    (m_start s) (m_endpoints s) (calls s) (surfaced s))
  | MSummary =>
      let '(elapsed, w) := time_Since (m_start s) (world s) in
      let '(_, w) :=
        fmt_out (Println [AString "✓ Health check complete";
                          AInt (Z.of_nat (length (m_endpoints s)));
                          ADuration elapsed]) w in
      Some (mkState w (wg s) MReturned (goroutines s)
                    (m_start s) (m_endpoints s) (calls s) (surfaced s))
  | MReturned => None
  end.

(** One step of the [i]-th probe goroutine. *)
Definition step_goroutine (f : Flags) (i : nat) (s : State) : option State :=
  match goroutines s !! i with
  | None => None
  | Some g =>
      match g_pc g with
      | GCall =>
          (* checkEndpoint(ep) is called and runs up to its request *)
          let '((start, p), w) := checkEndpoint_send f (g_ep g) (world s) in
          Some (mkState w (wg s) (main s)
                  (<[i := mkGoroutine (g_ep g) (GAwait start p)]>
                     (goroutines s))
                  (m_start s) (m_endpoints s)
                  (calls s ++ [g_ep g]) (surfaced s))
      | GAwait start p =>
          (* the answer is in: checkEndpoint returns its result, and
             printResult(result) is entered *)
          let '(result, w) := checkEndpoint_wait (g_ep g) start p (world s) in
          Some (mkState w (wg s) (main s)
                  (<[i := mkGoroutine (g_ep g)
                            (GPrint result (printResult result))]>
                     (goroutines s))
                  (m_start s) (m_endpoints s) (calls s) (surfaced s))
      | GPrint result (o :: pending) =>
          let '(_, w) := fmt_out o (world s) in
          Some (mkState w (wg s) (main s)
                  (<[i := mkGoroutine (g_ep g) (GPrint result pending)]>
                     (goroutines s))
                  (m_start s) (m_endpoints s) (calls s) (surfaced s))
      | GPrint result [] =>
          (* printResult returns; the deferred wg.Done() runs *)
          Some (mkState (world s) (wg s - 1) (main s)
                  (<[i := mkGoroutine (g_ep g) GExit]> (goroutines s))
                  (m_start s) (m_endpoints s)
                  (calls s) (surfaced s ++ [result]))
      | GExit => None
      end
  end.

(** The goroutine the scheduler picks next. *)
Inductive Tid :=
  | TMain
  | TProbe (i : nat).

Definition step_tid (f : Flags) (t : Tid) (s : State) : option State :=
  match t with
  | TMain => step_main s
  | TProbe i => step_goroutine f i s
  end.

Definition step (f : Flags) (s s' : State) : Prop :=
  exists t, step_tid f t s = Some s'.

(** Running a schedule, one pick after the other. *)
Fixpoint run (f : Flags) (sched : list Tid) (s : State) : option State :=
  match sched with
  | [] => Some s
  | t :: sched' =>
      match step_tid f t s with
      | Some s' => run f sched' s'
      | None => None
      end
  end.

(** [runCheck] under a schedule of its goroutines: the state it is in
    when the schedule has been followed, [None] if the schedule picks a
    goroutine that cannot move. *)
Definition runCheck (f : Flags) (sched : list Tid) (w : World)
  : option State :=
  run f sched (runCheck_init f w).

(** The states a run can be in. *)
Definition reachable (f : Flags) (s0 s : State) : Prop :=
  rtc (step f) s0 s.

(** The main goroutine is past the barrier of line 101. *)
Definition past_barrier (s : State) : bool :=
  match main s with
  | MRule | MSummary | MReturned => true
  | _ => false
  end.

Definition exited (g : Goroutine) : bool :=
  match g_pc g with GExit => true | _ => false end.

Definition called (g : Goroutine) : bool :=
  match g_pc g with GCall => false | _ => true end.

(** ** The dispatch loop: invariants *)

(** The endpoints the range loop has not yet started a goroutine for. *)
Definition todo (m : MainPC) : list Endpoint :=
  match m with
  | MLoop rest => rest
  | MGo ep rest => ep :: rest
  | _ => []
  end.

(** [wg.Add(1)] calls whose goroutine is not yet started. *)
Definition added_not_started (m : MainPC) : Z :=
  match m with
  | MGo _ _ => 1
  | _ => 0
  end.

(** The number of goroutines that have not yet run [wg.Done()]. *)
Fixpoint count_live (gs : list Goroutine) : Z :=
  match gs with
  | [] => 0
  | g :: gs' => (if exited g then 0 else 1) + count_live gs'
  end.

(** The endpoints of the goroutines that satisfy [p]. *)
Fixpoint pick (p : Goroutine -> bool) (gs : list Goroutine) : list Endpoint :=
  match gs with
  | [] => []
  | g :: gs' => if p g then g_ep g :: pick p gs' else pick p gs'
  end.

(** A goroutine inside [printResult] prints the result of its own
    endpoint. *)
Definition own_result (g : Goroutine) : Prop :=
  match g_pc g with
  | GPrint result _ => Endpoint_of result = g_ep g
  | _ => True
  end.

Record dispatch_inv (s : State) : Prop := mk_dispatch_inv {
  inv_endpoints :
    (map g_ep (goroutines s) ++ todo (main s))%list = m_endpoints s;
  inv_wg :
    wg s = count_live (goroutines s) + added_not_started (main s);
  inv_calls :
    calls s ≡ₚ pick called (goroutines s);
  inv_surfaced :
    map Endpoint_of (surfaced s) ≡ₚ pick exited (goroutines s);
  inv_own_result :
    Forall own_result (goroutines s);
  inv_barrier :
    past_barrier s = true -> count_live (goroutines s) = 0;
}.

(** The number of steps a goroutine still has to make. *)
Definition steps_left (g : Goroutine) : nat :=
  match g_pc g with
  | GCall => 8
  | GAwait _ _ => 7
  | GPrint _ pending => S (length pending)
  | GExit => 0
  end.

Definition main_steps_left (m : MainPC) : nat :=
  match m with
  | MLoop rest => 10 * length rest + 4
  | MGo _ rest => 10 * length rest + 13
  | MWait => 3
  | MRule => 2
  | MSummary => 1
  | MReturned => 0
  end.

(** A bound on the number of steps that are left in any run from [s]. *)
Definition fuel (s : State) : nat :=
  main_steps_left (main s) + sum_list_with steps_left (goroutines s).

Definition returned (s : State) : bool :=
  match main s with MReturned => true | _ => false end.

(** ** Vocabulary of the statements *)

(** The client [checkEndpoint] builds on line 110. *)
Definition client_of (f : Flags) : Client :=
  mkClient (wrap64 (timeout f * Second)).

(** What [client.Get] returns to [checkEndpoint f endpoint] in world [w]. *)
Definition get_result (f : Flags) (endpoint : Endpoint) (w : World)
  : GetResult :=
  fst (client_Get (client_of f) (URL endpoint) w).

(** "Exactly one of status code and error is populated", with the
    zero value of each field read as "absent". *)
Definition exactly_one_populated (r : HealthResult) : Prop :=
  (StatusCode r <> 0 /\ Error r = None) \/
  (StatusCode r = 0 /\ Error r <> None).

(** What the prologue of [runCheck] prints. *)
Definition banner (f : Flags) : list Output :=
  ([ Println [AString "Health Checker v0.1"]; Println [AString rule] ]
   ++ (if verbose f
       then [ Printf "⚙️ Timeout: %ds\n" [AInt (timeout f)] ]
       else [])
   ++ [ Println [] ])%list.

(** The shape of a step of a probe goroutine: its own program counter
    moves, the others and the main goroutine stay where they are. *)
Inductive probe_step (f : Flags) (s s' : State) : Prop :=
  | probe_send gs1 g gs2 start p w
      (Hgs : goroutines s = (gs1 ++ g :: gs2)%list)
      (Hpc : g_pc g = GCall)
      (Hrun : checkEndpoint_send f (g_ep g) (world s) = ((start, p), w))
      (Hs' : s' = mkState w (wg s) (main s)
                    (gs1 ++ mkGoroutine (g_ep g) (GAwait start p) :: gs2)
                    (m_start s) (m_endpoints s)
                    (calls s ++ [g_ep g]) (surfaced s))
  | probe_wake gs1 g gs2 start p result w
      (Hgs : goroutines s = (gs1 ++ g :: gs2)%list)
      (Hpc : g_pc g = GAwait start p)
      (Hrun : checkEndpoint_wait (g_ep g) start p (world s) = (result, w))
      (Hs' : s' = mkState w (wg s) (main s)
                    (gs1 ++ mkGoroutine (g_ep g)
                              (GPrint result (printResult result)) :: gs2)
                    (m_start s) (m_endpoints s) (calls s) (surfaced s))
  | probe_print gs1 g gs2 result o pending
      (Hgs : goroutines s = (gs1 ++ g :: gs2)%list)
      (Hpc : g_pc g = GPrint result (o :: pending))
      (Hs' : s' = mkState (snd (fmt_out o (world s))) (wg s) (main s)
                    (gs1 ++ mkGoroutine (g_ep g) (GPrint result pending) :: gs2)
                    (m_start s) (m_endpoints s) (calls s) (surfaced s))
  | probe_done gs1 g gs2 result
      (Hgs : goroutines s = (gs1 ++ g :: gs2)%list)
      (Hpc : g_pc g = GPrint result [])
      (Hs' : s' = mkState (world s) (wg s - 1) (main s)
                    (gs1 ++ mkGoroutine (g_ep g) GExit :: gs2)
                    (m_start s) (m_endpoints s)
                    (calls s) (surfaced s ++ [result])).

(** Two states that agree on everything but what has been printed, and
    there differ only in a prefix: [a] in the first, [b] in the second. *)
Record same_but_stdout (a b : list Output) (s s' : State) : Prop :=
  mk_same_but_stdout {
  sb_stdout :
    exists rest,
      stdout (world s) = (a ++ rest)%list /\
      stdout (world s') = (b ++ rest)%list;
  sb_clock : clock (world s') = clock (world s);
  sb_requests : requests (world s') = requests (world s);
  sb_open_bodies : open_bodies (world s') = open_bodies (world s);
  sb_network : network (world s') = network (world s);
  sb_wg : wg s' = wg s;
  sb_main : main s' = main s;
  sb_goroutines : goroutines s' = goroutines s;
  sb_start : m_start s' = m_start s;
  sb_endpoints : m_endpoints s' = m_endpoints s;
  sb_calls : calls s' = calls s;
  sb_surfaced : surfaced s' = surfaced s;
}.

(** Both runs take the same step, or neither can. *)
Definition in_step (a b : list Output) (o o' : option State) : Prop :=
  match o, o' with
  | Some s, Some s' => same_but_stdout a b s s'
  | None, None => True
  | _, _ => False
  end.

(** ** The flags as [init] registers them (check.go, lines 49-57) *)

(** [IntVarP(&timeout, "timeout", "t", 10, ...)],
    [StringSliceVarP(&urls, "urls", "u", []string{}, ...)] and
    [BoolVarP(&verbose, "verbose", "v", false, ...)]: the values the
    flags have when the command line sets none. *)
Definition default_flags : Flags :=
  {| timeout := 10; urls := []; verbose := false |}.

(** ** Vocabulary of the statements about whole runs *)

(** The three fields of a result that say how the probe went. *)
Definition verdict (r : HealthResult) : bool * Z * option error :=
  (IsHealthy r, StatusCode r, Error r).

(** What the main goroutine has printed after the barrier. *)
Definition epilogue (s : State) : list Output :=
  match main s with
  | MSummary => [ Println [AString rule] ]
  | MReturned =>
      [ Println [AString rule];
        Println [AString "✓ Health check complete";
                 AInt (Z.of_nat (length (m_endpoints s)));
                 ADuration (clock (world s) - m_start s)] ]
  | _ => []
  end.

(** The calls of [printResult] a goroutine has already made on standard
    output, given what it still has to print. *)
Definition printed_so_far (g : Goroutine) (done : list Output) : Prop :=
  match g_pc g with
  | GPrint result pending => printResult result = (done ++ pending)%list
  | _ => done = []
  end.

(** Where the clock readings of a goroutine lie: [start] was read after
    the [start] of [runCheck] and not after now; a measured duration is
    not negative and not longer than the run so far. *)
Definition timed (start0 now : Z) (g : Goroutine) : Prop :=
  match g_pc g with
  | GAwait start _ => start0 <= start <= now
  | GPrint result _ => 0 <= Duration_of result <= now - start0
  | _ => True
  end.

(** A result whose verdict is the answer of the network [net] to some
    request for the URL of its endpoint with the timeout [t]. *)
Definition answered_by (net : nat -> string -> Duration -> Z -> Answer)
    (t : Duration) (ep : Endpoint) (rep : Reply) : Prop :=
  exists n c, rep = reply (net n (URL ep) t c).

Definition reply_verdict (rep : Reply) : bool * Z * option error :=
  match rep with
  | Responded code => ((200 <=? code) && (code <? 400), code, None)
  | Failed e => (false, 0, Some e)
  end.

Definition sourced (net : nat -> string -> Duration -> Z -> Answer)
    (t : Duration) (g : Goroutine) : Prop :=
  match g_pc g with
  | GAwait _ p => answered_by net t (g_ep g) (fl_reply p)
  | GPrint result _ =>
      exists rep, answered_by net t (g_ep g) rep /\
                  verdict result = reply_verdict rep
  | _ => True
  end.

(** Invariants of a run, beside [dispatch_inv]. *)

(** Clock readings: the clock is not before the [start] of [runCheck],
    and the readings and durations of the goroutines lie in between. *)
Record time_inv (s : State) : Prop := mk_time_inv {
  ti_clock : m_start s <= clock (world s);
  ti_goroutines :
    Forall (timed (m_start s) (clock (world s))) (goroutines s);
  ti_surfaced :
    Forall (fun r => 0 <= Duration_of r <= clock (world s) - m_start s)
           (surfaced s);
}.


(** Provenance of the verdicts: each comes from an answer of the network
    of [w0] for the URL of its own endpoint. *)
Record source_inv (f : Flags) (w0 : World) (s : State) : Prop :=
  mk_source_inv {
  si_network : network (world s) = network w0;
  si_goroutines :
    Forall (sourced (network w0) (wrap64 (timeout f * Second)))
           (goroutines s);
  si_surfaced :
    Forall (fun r =>
              exists rep,
                answered_by (network w0) (wrap64 (timeout f * Second))
                            (Endpoint_of r) rep /\
                verdict r = reply_verdict rep)
           (surfaced s);
}.

(** Standard output, against what was there when the dispatch loop was
    entered: the calls the goroutines have made so far, in some
    interleaving that keeps the order of each report, then what the
    main goroutine has printed after the barrier. *)
Definition output_inv (out0 : list Output) (s : State) : Prop :=
  exists body dones,
    stdout (world s) = (out0 ++ body ++ epilogue s)%list /\
    Forall2 printed_so_far (goroutines s) dones /\
    body ≡ₚ (concat (map printResult (surfaced s)) ++ concat dones)%list /\
    Forall (fun d => d `sublist_of` body) dones /\
    Forall (fun r => printResult r `sublist_of` body) (surfaced s).

(** ** Fixtures: a scripted network and the flags of a sample run *)

(** Endpoint "a" answers 200 after 50ns, "b" answers 500 after 10ns, "z"
    answers with status line 000, anything else times out after 200ns. *)
Definition sample_network : nat -> string -> Duration -> Z -> Answer :=
  fun _ url _ _ =>
    if String.eqb url "a" then mkAnswer 50 (Responded 200)
    else if String.eqb url "b" then mkAnswer 10 (Responded 500)
    else if String.eqb url "z" then mkAnswer 5 (Responded 0)
    else mkAnswer 200 (Failed "context deadline exceeded").

Definition sample_world : World :=
  mkWorld 1000 0 ∅ [] sample_network.

Definition sample_flags : Flags :=
  mkFlags 10 ["a"; "b"; "c"] false.

(** An interleaving of the sample run: the three goroutines are started,
    send their requests and are woken out of order, print line by line
    in turn, and the main goroutine goes on from the barrier. *)
Definition sample_schedule : list Tid :=
  (repeat TMain 7
   ++ [TProbe 2; TProbe 0; TProbe 1; TProbe 1; TProbe 0; TProbe 2]
   ++ [TProbe 1; TProbe 0; TProbe 2; TProbe 1; TProbe 0; TProbe 2]
   ++ repeat (TProbe 1) 4 ++ repeat (TProbe 2) 3 ++ repeat (TProbe 0) 4
   ++ repeat TMain 3)%list.

(** A network that answers every request at once with a fixed status. *)
Definition fixed_status_world (code : Z) : World :=
  mkWorld 0 0 ∅ [] (fun _ _ _ _ => mkAnswer 0 (Responded code)).

(** ** Properties of the probe *)

Lemma checkEndpoint_halves f endpoint w :
  checkEndpoint f endpoint w =
  (let '((start, p), w1) := checkEndpoint_send f endpoint w in
   checkEndpoint_wait endpoint start p w1).
Proof. reflexivity. Qed.

(** The result of [checkEndpoint], read off the answer of the network. *)
Lemma checkEndpoint_unfold f endpoint w :
  fst (checkEndpoint f endpoint w) =
  let a := network w (requests w) (URL endpoint)
                   (wrap64 (timeout f * Second)) (clock w) in
  let d := Z.max (clock w) (clock w + Z.max 0 (latency a)) - clock w in
  match reply a with
  | Responded code =>
      {| Endpoint_of := endpoint;
         IsHealthy := (200 <=? code) && (code <? 400);
         StatusCode := code;
         Duration_of := d;
         Error := None |}
  | Failed e =>
      {| Endpoint_of := endpoint;
         IsHealthy := false;
         StatusCode := 0;
         Duration_of := d;
         Error := Some e |}
  end.
Proof.
  cbv [checkEndpoint bind time_Now client_Get client_Get_send
       client_Get_wait time_Since Body_Close ret fl_reply fl_done_at
       client_Timeout].
  cbn [clock]. destruct (reply _); reflexivity.
Qed.

Lemma get_result_unfold f endpoint w :
  get_result f endpoint w =
  match reply (network w (requests w) (URL endpoint)
                       (wrap64 (timeout f * Second)) (clock w)) with
  | Responded code => GetOK (mkResponse code (requests w))
  | Failed e => GetFail e
  end.
Proof.
  cbv [get_result client_of client_Get client_Get_send client_Get_wait
       bind fl_reply fl_index client_Timeout].
  destruct (reply _); reflexivity.
Qed.

(** C1, as stated, fails: a response whose status line carries the code
    000 (net/http accepts any three digits) leaves both [StatusCode] and
    [Error] at their zero value. *)
Lemma checkEndpoint_status_zero_neither_populated :
  let endpoint := {| Name := "Zero"; URL := "z" |} in
  let r := fst (checkEndpoint sample_flags endpoint sample_world) in
  get_result sample_flags endpoint sample_world = GetOK (mkResponse 0 0) /\
  StatusCode r = 0 /\ Error r = None /\
  ~ exactly_one_populated r.
Proof.
  cbv zeta. repeat split; try reflexivity.
  intros [[Hs _] | [_ He]].
  - apply Hs. reflexivity.
  - apply He. reflexivity.
Qed.

(** C1 (amended): [Error] is set exactly when the request failed, and
    then [StatusCode] is zero; a response leaves [Error] nil and puts its
    status code into [StatusCode]; so status code and error are never
    both populated, and exactly one of them is whenever the status code
    of a received response is not zero.  [IsHealthy] holds exactly when
    [StatusCode] is populated and lies in [200, 400), and never when
    [Error] is set. *)
Theorem checkEndpoint_status_xor_error f endpoint w :
  let r := fst (checkEndpoint f endpoint w) in
  (Error r <> None <-> exists e, get_result f endpoint w = GetFail e) /\
  (Error r <> None -> StatusCode r = 0) /\
  (forall resp, get_result f endpoint w = GetOK resp ->
     Error r = None /\ StatusCode r = resp_StatusCode resp) /\
  ~ (StatusCode r <> 0 /\ Error r <> None) /\
  ((forall resp, get_result f endpoint w = GetOK resp ->
      resp_StatusCode resp <> 0) ->
   exactly_one_populated r) /\
  (IsHealthy r = true <-> StatusCode r <> 0 /\ 200 <= StatusCode r < 400) /\
  (Error r <> None -> IsHealthy r = false).
Proof.
  cbv zeta. rewrite checkEndpoint_unfold, get_result_unfold. cbv zeta.
  unfold exactly_one_populated.
  destruct (reply _) as [code | e]; cbn [Error StatusCode IsHealthy];
    split_and!.
  - split; [congruence | intros [e He]; discriminate].
  - congruence.
  - intros resp [= <-]. split; reflexivity.
  - intros [_ He]. congruence.
  - intros Hnz. left. split; [| reflexivity].
    apply (Hnz (mkResponse code (requests w))). reflexivity.
  - rewrite andb_true_iff, Z.leb_le, Z.ltb_lt. lia.
  - congruence.
  - split; [intros _; exists e; reflexivity | congruence].
  - reflexivity.
  - intros resp [=].
  - intros [Hs _]. congruence.
  - intros _. right. split; congruence.
  - split; [discriminate | lia].
  - reflexivity.
Qed.

Lemma checkEndpoint_status_xor_error_witness :
  exactly_one_populated
    (fst (checkEndpoint sample_flags {| Name := "A"; URL := "a" |}
            sample_world)).
Proof.
  pose proof (checkEndpoint_status_xor_error sample_flags
                {| Name := "A"; URL := "a" |} sample_world) as H.
  cbv zeta in H. destruct H as (_ & _ & _ & _ & H & _).
  apply H. intros resp [= <-]. discriminate.
Defined.

(** C3: when a response is received, [checkEndpoint] records its status
    code, sets [IsHealthy] to [200 <= StatusCode < 400] and leaves
    [Error] empty; so status 404 always gives healthy=false,
    statusCode=404, error empty, and status 204 always gives
    healthy=true, statusCode=204. *)
Theorem checkEndpoint_response f endpoint w resp :
  get_result f endpoint w = GetOK resp ->
  let r := fst (checkEndpoint f endpoint w) in
  Endpoint_of r = endpoint /\
  StatusCode r = resp_StatusCode resp /\
  IsHealthy r = ((200 <=? StatusCode r) && (StatusCode r <? 400)) /\
  (IsHealthy r = true <-> 200 <= StatusCode r < 400) /\
  Error r = None /\
  (resp_StatusCode resp = 404 ->
   IsHealthy r = false /\ StatusCode r = 404 /\ Error r = None) /\
  (resp_StatusCode resp = 204 ->
   IsHealthy r = true /\ StatusCode r = 204 /\ Error r = None).
Proof.
  cbv zeta. rewrite checkEndpoint_unfold, get_result_unfold. cbv zeta.
  destruct (reply _) as [code | e]; [| discriminate].
  intros [= <-]. cbn [Error StatusCode IsHealthy Endpoint_of resp_StatusCode].
  split_and!; try reflexivity.
  - rewrite andb_true_iff, Z.leb_le, Z.ltb_lt. reflexivity.
  - intros ->. split_and!; reflexivity.
  - intros ->. split_and!; reflexivity.
Qed.

Lemma checkEndpoint_response_witness :
  let endpoint := {| Name := "Missing"; URL := "https://example.org/none" |} in
  let r := fst (checkEndpoint sample_flags endpoint (fixed_status_world 404)) in
  get_result sample_flags endpoint (fixed_status_world 404)
    = GetOK (mkResponse 404 0) /\
  IsHealthy r = false /\ StatusCode r = 404 /\ Error r = None.
Proof.
  cbv zeta. split; [reflexivity |].
  refine (let H := checkEndpoint_response sample_flags
            {| Name := "Missing"; URL := "https://example.org/none" |}
            (fixed_status_world 404) (mkResponse 404 0) eq_refl in _).
  cbv zeta in H. destruct H as (_ & _ & _ & _ & _ & H404 & _).
  exact (H404 eq_refl).
Defined.

(** C4: when the request fails, whatever the reason, [checkEndpoint]
    returns a result that carries the failure in [Error], with
    [StatusCode] zero and [IsHealthy] false; the failure is a value of
    the result and nothing else comes out of the call.  In the dispatch
    loop, the goroutine that is woken by a failure goes on to print that
    result like any other, and neither the wait group nor the main
    goroutine sees a difference. *)
Theorem checkEndpoint_failure f endpoint w err :
  get_result f endpoint w = GetFail err ->
  (exists d w',
     checkEndpoint f endpoint w =
       ({| Endpoint_of := endpoint; IsHealthy := false; StatusCode := 0;
           Duration_of := d; Error := Some err |}, w')) /\
  (forall s i start p,
     goroutines s !! i = Some (mkGoroutine endpoint (GAwait start p)) ->
     fl_reply p = Failed err ->
     exists d s',
       let r := {| Endpoint_of := endpoint; IsHealthy := false;
                   StatusCode := 0; Duration_of := d; Error := Some err |} in
       step_goroutine f i s = Some s' /\
       goroutines s' !! i = Some (mkGoroutine endpoint (GPrint r (printResult r))) /\
       wg s' = wg s /\ main s' = main s).
Proof.
  intros Hget. split.
  - pose proof (checkEndpoint_unfold f endpoint w) as Hr. cbv zeta in Hr.
    rewrite get_result_unfold in Hget.
    destruct (reply _) as [code | e]; [discriminate |].
    injection Hget as ->.
    destruct (checkEndpoint f endpoint w) as [r w'] eqn:E. cbn [fst] in Hr.
    subst r. eauto.
  - intros s i start p Hi Hp. unfold step_goroutine. rewrite Hi. cbn [g_pc g_ep].
    cbv [checkEndpoint_wait bind client_Get_wait time_Since ret]. rewrite Hp.
    eexists _, _. cbv zeta. split_and!; [reflexivity | | reflexivity ..].
    cbn [goroutines]. apply list_lookup_insert_eq.
    eapply lookup_lt_Some, Hi.
Qed.

Lemma checkEndpoint_failure_witness :
  let endpoint := {| Name := "Dead"; URL := "c" |} in
  get_result sample_flags endpoint sample_world
    = GetFail "context deadline exceeded" /\
  exists d w',
    checkEndpoint sample_flags endpoint sample_world =
      ({| Endpoint_of := endpoint; IsHealthy := false; StatusCode := 0;
          Duration_of := d; Error := Some "context deadline exceeded" |}, w').
Proof.
  cbv zeta. split; [reflexivity |].
  apply (checkEndpoint_failure sample_flags {| Name := "Dead"; URL := "c" |}
           sample_world "context deadline exceeded").
  reflexivity.
Defined.

(** C5: on both exit paths the [Duration] of the result is the time that
    passed on the clock between the start of the call and the arrival of
    the response or failure: for a call that runs alone it is the time
    the request took; for a probe goroutine, the time from the reading
    of [start] to the moment it is woken. *)
Theorem checkEndpoint_duration f endpoint w :
  let a := network w (requests w) (URL endpoint)
                   (wrap64 (timeout f * Second)) (clock w) in
  Duration_of (fst (checkEndpoint f endpoint w))
    = clock (snd (checkEndpoint f endpoint w)) - clock w /\
  Duration_of (fst (checkEndpoint f endpoint w)) = Z.max 0 (latency a) /\
  (forall start p w1,
     Duration_of (fst (checkEndpoint_wait endpoint start p w1))
       = clock (snd (checkEndpoint_wait endpoint start p w1)) - start /\
     clock (snd (checkEndpoint_wait endpoint start p w1))
       = Z.max (clock w1) (fl_done_at p)).
Proof.
  cbv zeta. split; [| split].
  - cbv [checkEndpoint bind time_Now client_Get client_Get_send
         client_Get_wait time_Since Body_Close ret fl_reply fl_done_at
         client_Timeout].
    destruct (reply _); reflexivity.
  - rewrite checkEndpoint_unfold. cbv zeta.
    destruct (reply _); cbn [Duration_of]; lia.
  - intros start p w1.
    cbv [checkEndpoint_wait bind client_Get_wait time_Since Body_Close ret].
    destruct (fl_reply p); split; reflexivity.
Qed.

(** C8: the body of the response a call of [checkEndpoint] receives is
    closed when the call returns, and a call that receives none leaves
    the set of open bodies as it was: no call adds an open body. *)
Theorem checkEndpoint_closes_body f endpoint w :
  let w' := snd (checkEndpoint f endpoint w) in
  open_bodies w' ⊆ open_bodies w /\
  match get_result f endpoint w with
  | GetOK resp =>
      (resp_Body resp ∉ open_bodies w') /\
      open_bodies w' = open_bodies w ∖ {[ resp_Body resp ]}
  | GetFail _ => open_bodies w' = open_bodies w
  end.
Proof.
  cbv zeta. rewrite get_result_unfold.
  cbv [checkEndpoint bind time_Now client_Get client_Get_send
       client_Get_wait time_Since Body_Close ret fl_reply fl_done_at
       fl_index client_Timeout].
  destruct (reply _); cbn [snd open_bodies resp_Body]; set_solver.
Qed.

(** ** The endpoint list *)

Lemma range_urls_imap us : forall i endpoints,
  range_urls i us endpoints =
  (endpoints ++
   imap (fun j url => {| Name := Sprintf_Custom (i + j + 1); URL := url |}) us)%list.
Proof.
  induction us as [| url rest IH]; intros i endpoints; cbn [range_urls imap].
  - rewrite app_nil_r. reflexivity.
  - rewrite IH, <- app_assoc. cbn [app]. f_equal. f_equal.
    + f_equal. f_equal. lia.
    + apply imap_ext. intros j u _. cbn. f_equal. f_equal. lia.
Qed.

Lemma map_URL_imap (name : nat -> string) (us : list string) :
  map URL (imap (fun j url => {| Name := name j; URL := url |}) us) = us.
Proof.
  revert name. induction us as [| u us IH]; intros name; [reflexivity |].
  cbn [imap map URL]. f_equal. apply (IH (name ∘ S)).
Qed.

Lemma Sprintf_Custom_nonempty n : Sprintf_Custom n <> "".
Proof. discriminate. Qed.

Example build_endpoints_twelve :
  map Name (build_endpoints (mkFlags 10 (replicate 12 "u") false)) =
  [ "Custom-1"; "Custom-2"; "Custom-3"; "Custom-4"; "Custom-5"; "Custom-6";
    "Custom-7"; "Custom-8"; "Custom-9"; "Custom-10"; "Custom-11";
    "Custom-12" ].
Proof. vm_compute. reflexivity. Qed.

(** C9: with N >= 1 URLs in [--urls] the endpoint list has N entries,
    the i-th (counting from 1) named "Custom-i" with the i-th URL, so
    every name is non-empty; with no URL the list is the three built-in
    endpoints; in both cases the list the dispatch loop gets is not
    empty. *)
Theorem build_endpoints_custom_or_default f :
  (urls f <> [] ->
   length (build_endpoints f) = length (urls f) /\
   (forall i url, urls f !! i = Some url ->
      build_endpoints f !! i =
        Some {| Name := "Custom-" +:+ pretty (i + 1)%nat; URL := url |}) /\
   map URL (build_endpoints f) = urls f) /\
  (urls f = [] ->
   build_endpoints f =
     [ {| Name := "Github API"; URL := "https://api.github.com" |};
       {| Name := "JSONPlaceholder";
          URL := "https://jsonplaceholder.typicode.com/posts/1" |};
       {| Name := "Dog Breeds API";
          URL := "https://dog.ceo/api/breeds/list/all" |} ]) /\
  (forall ep, ep ∈ build_endpoints f -> Name ep <> "") /\
  build_endpoints f <> [] /\
  (forall w, main (runCheck_init f w) = MLoop (build_endpoints f)).
Proof.
  assert (Hloop : forall w, main (runCheck_init f w) = MLoop (build_endpoints f)).
  { intros w. unfold runCheck_init.
    destruct (prologue f w) as [start w1]. reflexivity. }
  revert Hloop. unfold build_endpoints.
  destruct (urls f) as [| u us] eqn:Hu; cbn [length Nat.ltb Nat.leb];
    intros Hloop.
  - split_and!; try congruence; try reflexivity; try exact Hloop;
      try discriminate.
    intros ep Hep. unfold default_endpoints in Hep.
    repeat (apply elem_of_cons in Hep as [-> | Hep]; [discriminate |]).
    apply elem_of_nil in Hep. contradiction.
  - rewrite range_urls_imap, app_nil_l. split_and!.
    + intros _. split_and!.
      * rewrite length_imap. reflexivity.
      * intros i url Hi. rewrite list_lookup_imap, Hi. reflexivity.
      * apply map_URL_imap.
    + discriminate.
    + intros ep Hep. apply elem_of_lookup_imap in Hep as (i & url & -> & _).
      apply Sprintf_Custom_nonempty.
    + discriminate.
    + intros w. rewrite Hloop, range_urls_imap, app_nil_l. reflexivity.
Qed.

Lemma build_endpoints_custom_or_default_witness :
  urls sample_flags <> [] /\
  build_endpoints sample_flags !! 1%nat =
    Some {| Name := "Custom-2"; URL := "b" |}.
Proof.
  split; [discriminate |].
  pose proof (build_endpoints_custom_or_default sample_flags) as (H & _).
  destruct H as (_ & H & _); [discriminate |].
  apply (H 1%nat "b"). reflexivity.
Defined.

(** ** The dispatch loop: what a step does *)

Lemma count_live_app gs1 gs2 :
  count_live (gs1 ++ gs2) = count_live gs1 + count_live gs2.
Proof. induction gs1 as [| g gs1 IH]; cbn [count_live app]; lia. Qed.

Lemma count_live_nonneg gs : 0 <= count_live gs.
Proof.
  induction gs as [| g gs IH]; cbn [count_live]; [lia |].
  destruct (exited g); lia.
Qed.

Lemma count_live_zero gs :
  count_live gs = 0 <-> Forall (fun g => exited g = true) gs.
Proof.
  induction gs as [| g gs IH]; cbn [count_live].
  - split; [constructor | reflexivity].
  - pose proof (count_live_nonneg gs). rewrite Forall_cons.
    destruct (exited g); split.
    + intros H0. split; [reflexivity | apply IH; lia].
    + intros [_ H0]. apply IH in H0. lia.
    + lia.
    + intros [[=] _].
Qed.

Lemma count_live_pos gs :
  count_live gs <> 0 ->
  exists i g, gs !! i = Some g /\ exited g = false.
Proof.
  induction gs as [| g gs IH]; cbn [count_live]; [done |].
  destruct (exited g) eqn:Hg.
  - intros Hne. destruct IH as (i & g' & Hi & Hg'); [lia |].
    exists (S i), g'. done.
  - intros _. exists 0%nat, g. done.
Qed.

Lemma pick_app p gs1 gs2 :
  pick p (gs1 ++ gs2) = (pick p gs1 ++ pick p gs2)%list.
Proof.
  induction gs1 as [| g gs1 IH]; cbn [pick app]; [reflexivity |].
  destruct (p g); cbn [app]; congruence.
Qed.

Lemma pick_all p gs :
  Forall (fun g => p g = true) gs -> pick p gs = map g_ep gs.
Proof.
  induction 1 as [| g gs Hg _ IH]; cbn [pick map]; [reflexivity |].
  rewrite Hg, IH. reflexivity.
Qed.

(** Replacing the [i]-th goroutine splits the pool around it. *)
Lemma goroutine_update (gs : list Goroutine) i g g' :
  gs !! i = Some g ->
  exists gs1 gs2,
    gs = (gs1 ++ g :: gs2)%list /\ <[i := g']> gs = (gs1 ++ g' :: gs2)%list /\
    length gs1 = i.
Proof.
  intros Hi. exists (take i gs), (drop (S i) gs).
  pose proof (lookup_lt_Some _ _ _ Hi) as Hlt.
  split_and!.
  - symmetry. apply take_drop_middle. exact Hi.
  - apply insert_take_drop. exact Hlt.
  - rewrite length_take. lia.
Qed.

Lemma printResult_length r : (length (printResult r) <= 5)%nat.
Proof.
  unfold printResult. destruct (Error r); cbn [length app]; lia.
Qed.

Lemma step_goroutine_inv f i s s' :
  step_goroutine f i s = Some s' -> probe_step f s s'.
Proof.
  unfold step_goroutine. destruct (goroutines s !! i) as [g |] eqn:Hi; [| done].
  destruct (goroutine_update _ _ _ (mkGoroutine (g_ep g) GExit) Hi)
    as (gs1 & gs2 & Hgs & _ & Hlen).
  assert (Hupd : forall g', <[i := g']> (goroutines s) = (gs1 ++ g' :: gs2)%list).
  { intros g'. destruct (goroutine_update _ _ _ g' Hi) as (l1 & l2 & H1 & H2 & H3).
    rewrite H2. rewrite Hgs in H1.
    assert (gs1 = l1) as ->.
    { apply (f_equal (take i)) in H1.
      rewrite take_app_length' in H1 by done.
      rewrite take_app_length' in H1 by done. done. }
    apply app_inv_head in H1. injection H1 as ->. done. }
  destruct (g_pc g) as [| start p | result [| o pending] |] eqn:Hpc.
  - destruct (checkEndpoint_send f (g_ep g) (world s)) as [[start p] w] eqn:Hrun.
    intros [= <-]. rewrite Hupd. eapply probe_send; eauto.
  - destruct (checkEndpoint_wait (g_ep g) start p (world s)) as [result w] eqn:Hrun.
    intros [= <-]. rewrite Hupd. eapply probe_wake; eauto.
  - intros [= <-]. rewrite Hupd. eapply probe_done; eauto.
  - intros [= <-]. rewrite Hupd. eapply probe_print; eauto.
  - done.
Qed.

(** ** The dispatch loop: the invariant holds in every reachable state *)

Lemma dispatch_inv_init start endpoints w :
  dispatch_inv (dispatch_init start endpoints w).
Proof.
  constructor; cbn; try reflexivity; done.
Qed.

Ltac pool_simpl Hgs Hpc :=
  rewrite Hgs in *;
  rewrite ?map_app, ?count_live_app, ?pick_app, ?Forall_app, ?Forall_cons in *;
  cbn [map count_live pick g_ep g_pc] in *;
  unfold exited, called, own_result in *;
  cbn [g_ep g_pc] in *;
  rewrite ?Hpc in *.

Lemma dispatch_inv_probe_step f s s' :
  probe_step f s s' -> dispatch_inv s -> dispatch_inv s'.
Proof.
  intros Hstep [Heps Hwg Hcalls Hsurf Hown Hbar].
  pose proof (count_live_nonneg (goroutines s)) as Hnn.
  destruct Hstep; subst s';
    pose proof (count_live_nonneg gs1); pose proof (count_live_nonneg gs2);
    constructor; cbn [goroutines main wg calls surfaced m_endpoints past_barrier] in *;
    pool_simpl Hgs Hpc; try done.
  - rewrite Hcalls, <- app_assoc. apply Permutation_app_head.
    symmetry. apply Permutation_cons_append.
  - destruct Hown as (? & _ & ?). split_and!; try done.
    cbv [checkEndpoint_wait bind client_Get_wait time_Since Body_Close ret]
      in Hrun.
    destruct (fl_reply p); injection Hrun as <- _; reflexivity.
  - lia.
  - destruct Hown as (_ & Hg & _).
    rewrite Hg, Hsurf, <- app_assoc. apply Permutation_app_head.
    symmetry. apply Permutation_cons_append.
  - destruct Hown as (? & _ & ?). split_and!; done.
  - unfold past_barrier; cbn [main]. intros Hp. specialize (Hbar Hp). lia.
Qed.

Lemma dispatch_inv_main_step s s' :
  step_main s = Some s' -> dispatch_inv s -> dispatch_inv s'.
Proof.
  unfold step_main. intros Hstep [Heps Hwg Hcalls Hsurf Hown Hbar].
  pose proof (count_live_nonneg (goroutines s)) as Hnn.
  destruct (main s) as [[| ep rest] | ep rest | | | |] eqn:Hm;
    try destruct (Z.eqb_spec (wg s) 0); try discriminate;
    injection Hstep as <-;
    constructor;
    cbn [goroutines main wg calls surfaced m_endpoints past_barrier todo
         added_not_started fmt_out time_Since snd] in *;
    unfold past_barrier in *; cbn [main] in *;
    rewrite ?Hm in *; cbn [todo added_not_started] in *;
    try done; try lia; try (intros _; apply Hbar; reflexivity).
  - rewrite map_app, <- app_assoc. exact Heps.
  - rewrite count_live_app. cbn. lia.
  - rewrite pick_app, app_nil_r. exact Hcalls.
  - rewrite pick_app, app_nil_r. exact Hsurf.
  - rewrite Forall_app. split; [exact Hown |]. repeat constructor.
Qed.

Lemma dispatch_inv_step f s s' :
  step f s s' -> dispatch_inv s -> dispatch_inv s'.
Proof.
  intros [[| i] Hstep]; cbn [step_tid] in Hstep.
  - apply dispatch_inv_main_step. exact Hstep.
  - apply (dispatch_inv_probe_step f). apply (step_goroutine_inv f i).
    exact Hstep.
Qed.

Lemma dispatch_inv_reachable f s0 s :
  reachable f s0 s -> dispatch_inv s0 -> dispatch_inv s.
Proof.
  induction 1 as [| s1 s2 s3 Hstep _ IH]; [done |].
  intros Hinv. apply IH. apply (dispatch_inv_step f s1); done.
Qed.

(** ** The dispatch loop: schedules and reachable states *)

Lemma run_app f sched1 sched2 s :
  run f (sched1 ++ sched2) s =
  match run f sched1 s with
  | Some s' => run f sched2 s'
  | None => None
  end.
Proof.
  revert s. induction sched1 as [| t sched1 IH]; intros s; cbn [run app].
  - reflexivity.
  - destruct (step_tid f t s); [apply IH | reflexivity].
Qed.

Lemma run_reachable f sched s s' :
  run f sched s = Some s' -> reachable f s s'.
Proof.
  revert s. induction sched as [| t sched IH]; intros s; cbn [run].
  - intros [= ->]. apply rtc_refl.
  - destruct (step_tid f t s) as [s1 |] eqn:Hstep; [| done].
    intros Hrun. eapply rtc_l; [exists t; exact Hstep | apply IH, Hrun].
Qed.

Lemma reachable_run f s s' :
  reachable f s s' -> exists sched, run f sched s = Some s'.
Proof.
  induction 1 as [s | s1 s2 s3 [t Hstep] _ [sched IH]].
  - exists []. reflexivity.
  - exists (t :: sched). cbn [run]. rewrite Hstep. exact IH.
Qed.

Lemma dispatch_inv_run f sched start endpoints w s :
  run f sched (dispatch_init start endpoints w) = Some s -> dispatch_inv s.
Proof.
  intros Hrun. eapply dispatch_inv_reachable.
  - eapply run_reachable, Hrun.
  - apply dispatch_inv_init.
Qed.

(** The list of endpoints and the start time are fixed during a run. *)
Lemma step_constants f s s' :
  step f s s' -> m_endpoints s' = m_endpoints s /\ m_start s' = m_start s.
Proof.
  intros [[| i] Hstep]; cbn [step_tid] in Hstep.
  - unfold step_main in Hstep.
    destruct (main s) as [[| ep rest] | ep rest | | | |];
      try destruct (wg s =? 0); try discriminate;
      injection Hstep as <-; split; reflexivity.
  - apply step_goroutine_inv in Hstep.
    destruct Hstep; subst s'; split; reflexivity.
Qed.

Lemma run_constants f sched s s' :
  run f sched s = Some s' ->
  m_endpoints s' = m_endpoints s /\ m_start s' = m_start s.
Proof.
  intros Hrun. apply run_reachable in Hrun.
  induction Hrun as [| s1 s2 s3 Hstep _ IH]; [done |].
  apply step_constants in Hstep as [<- <-]. exact IH.
Qed.

(** ** The dispatch loop: every run ends *)

Lemma fuel_step f s s' : step f s s' -> (fuel s' < fuel s)%nat.
Proof.
  intros [[| i] Hstep]; cbn [step_tid] in Hstep; unfold fuel.
  - unfold step_main in Hstep.
    destruct (main s) as [[| ep rest] | ep rest | | | |];
      try destruct (wg s =? 0); try discriminate;
      injection Hstep as <-; cbn [main goroutines main_steps_left length];
      rewrite ?sum_list_with_app; cbn; lia.
  - apply step_goroutine_inv in Hstep.
    destruct Hstep; subst s'; cbn [main goroutines]; rewrite Hgs;
      rewrite !sum_list_with_app; cbn [sum_list_with].
    all: assert (Hg : steps_left g = steps_left (mkGoroutine (g_ep g) (g_pc g)))
           by reflexivity;
         rewrite Hg, Hpc; unfold steps_left; cbn [g_pc length];
         try pose proof (printResult_length result); lia.
Qed.

(** A state in which the main goroutine has not returned has a step:
    either the main goroutine can move, or it waits at the barrier for a
    goroutine that can. *)
Lemma dispatch_progress f s :
  dispatch_inv s -> returned s = false -> exists s', step f s s'.
Proof.
  intros Hinv Hret. unfold step.
  destruct (step_main s) as [s' |] eqn:Hmain.
  { exists s', TMain. exact Hmain. }
  unfold step_main, returned in *.
  destruct (main s) as [[| ep rest] | ep rest | | | |] eqn:Hm; try discriminate.
  destruct (Z.eqb_spec (wg s) 0) as [| Hwg]; [discriminate |].
  pose proof (inv_wg s Hinv) as Hcount. rewrite Hm in Hcount.
  cbn [added_not_started] in Hcount.
  assert (Hlive : exists i g, goroutines s !! i = Some g /\ exited g = false).
  { apply count_live_pos. lia. }
  destruct Hlive as (i & g & Hi & Hg).
  assert (is_Some (step_goroutine f i s)) as [s' Hs'].
  { unfold step_goroutine. rewrite Hi. unfold exited in Hg.
    destruct (g_pc g) as [| start p | result [| o pending] |];
      try discriminate.
    - destruct (checkEndpoint_send f (g_ep g) (world s)) as [[? ?] ?]. eauto.
    - destruct (checkEndpoint_wait (g_ep g) start p (world s)). eauto.
    - eauto.
    - cbn. eauto. }
  exists s', (TProbe i). exact Hs'.
Qed.

Lemma dispatch_terminates f s :
  dispatch_inv s ->
  exists sched s', run f sched s = Some s' /\ returned s' = true.
Proof.
  remember (fuel s) as n eqn:Hn. revert s Hn.
  induction n as [n IH] using lt_wf_ind. intros s -> Hinv.
  destruct (returned s) eqn:Hret.
  { exists [], s. split; [reflexivity | exact Hret]. }
  destruct (dispatch_progress f s Hinv Hret) as [s1 Hstep].
  pose proof (fuel_step f s s1 Hstep) as Hlt.
  pose proof (dispatch_inv_step f s s1 Hstep Hinv) as Hinv1.
  destruct (IH (fuel s1) Hlt s1 eq_refl Hinv1) as (sched & s' & Hrun & Hdone).
  destruct Hstep as [t Hstep].
  exists (t :: sched), s'. split; [| exact Hdone].
  cbn [run]. rewrite Hstep. exact Hrun.
Qed.

Lemma run_length f sched s s' :
  run f sched s = Some s' -> (length sched + fuel s' <= fuel s)%nat.
Proof.
  revert s. induction sched as [| t sched IH]; intros s; cbn [run length].
  - intros [= ->]. lia.
  - destruct (step_tid f t s) as [s1 |] eqn:Hstep; [| done].
    intros Hrun. apply IH in Hrun.
    assert (fuel s1 < fuel s)%nat by (apply (fuel_step f); exists t; done).
    lia.
Qed.

(** ** Properties of the dispatch loop *)

Lemma exited_pc g : exited g = true <-> g_pc g = GExit.
Proof. unfold exited. destruct (g_pc g); split; congruence. Qed.

Lemma exited_called g : exited g = true -> called g = true.
Proof. unfold exited, called. destruct (g_pc g); congruence. Qed.

(** What the invariant says once every goroutine has exited and the
    range loop is over. *)
Lemma dispatch_inv_all_exited s :
  dispatch_inv s ->
  todo (main s) = [] ->
  count_live (goroutines s) = 0 ->
  map g_ep (goroutines s) = m_endpoints s /\
  Forall (fun g => g_pc g = GExit) (goroutines s) /\
  calls s ≡ₚ m_endpoints s /\
  map Endpoint_of (surfaced s) ≡ₚ m_endpoints s.
Proof.
  intros [Heps _ Hcalls Hsurf _ _] Htodo Hzero.
  rewrite Htodo, app_nil_r in Heps.
  apply count_live_zero in Hzero.
  split_and!.
  - exact Heps.
  - eapply Forall_impl; [exact Hzero |]. intros g. apply exited_pc.
  - rewrite Hcalls, <- Heps. rewrite pick_all; [reflexivity |].
    eapply Forall_impl; [exact Hzero |]. intros g. apply exited_called.
  - rewrite Hsurf, <- Heps. rewrite pick_all; [reflexivity | exact Hzero].
Qed.

Lemma past_barrier_todo s : past_barrier s = true -> todo (main s) = [].
Proof. unfold past_barrier. destruct (main s); done. Qed.

(** C2: for every list of N endpoints and every interleaving of the
    goroutines, once the main goroutine is past [wg.Wait()] there has
    been one goroutine per endpoint, each has exited, [checkEndpoint]
    has been called once per endpoint and one result per endpoint has
    been printed: N outcomes, none dropped, duplicated or pending.
    Every run can be continued to the return of [runCheck], and no run
    is longer than a bound fixed by N. *)
Theorem dispatch_one_outcome_per_endpoint f start endpoints w :
  let s0 := dispatch_init start endpoints w in
  (forall sched s,
     run f sched s0 = Some s -> past_barrier s = true ->
     map g_ep (goroutines s) = endpoints /\
     Forall (fun g => g_pc g = GExit) (goroutines s) /\
     calls s ≡ₚ endpoints /\
     length (calls s) = length endpoints /\
     map Endpoint_of (surfaced s) ≡ₚ endpoints /\
     length (surfaced s) = length endpoints) /\
  (forall sched s,
     run f sched s0 = Some s ->
     exists sched' s',
       run f (sched ++ sched') s0 = Some s' /\ returned s' = true) /\
  (forall sched s,
     run f sched s0 = Some s ->
     (length sched <= 10 * length endpoints + 4)%nat).
Proof.
  cbv zeta. split_and!.
  - intros sched s Hrun Hpast.
    pose proof (dispatch_inv_run _ _ _ _ _ _ Hrun) as Hinv.
    destruct (run_constants _ _ _ _ Hrun) as [Heps _].
    cbn [dispatch_init m_endpoints] in Heps.
    destruct (dispatch_inv_all_exited s Hinv (past_barrier_todo s Hpast)
                (inv_barrier s Hinv Hpast)) as (H1 & H2 & H3 & H4).
    rewrite Heps in *. split_and!; try done.
    + rewrite H3. reflexivity.
    + rewrite <- (length_map Endpoint_of), H4. reflexivity.
  - intros sched s Hrun.
    pose proof (dispatch_inv_run _ _ _ _ _ _ Hrun) as Hinv.
    destruct (dispatch_terminates f s Hinv) as (sched' & s' & Hrun' & Hret).
    exists sched', s'. rewrite run_app, Hrun. done.
  - intros sched s Hrun. apply run_length in Hrun.
    unfold fuel in Hrun at 2. cbn in Hrun. lia.
Qed.

Lemma dispatch_one_outcome_per_endpoint_witness :
  exists s,
    runCheck sample_flags sample_schedule sample_world = Some s /\
    past_barrier s = true /\
    length (calls s) = 3%nat /\ length (surfaced s) = 3%nat.
Proof.
  pose proof (dispatch_one_outcome_per_endpoint sample_flags
                (clock sample_world) (build_endpoints sample_flags)
                (snd (prologue sample_flags sample_world))) as (H & _).
  specialize (H sample_schedule).
  eexists. split; [vm_compute; reflexivity |].
  split; [reflexivity |].
  edestruct H as (_ & _ & _ & Hc & _ & Hs);
    [vm_compute; reflexivity | reflexivity |].
  split; [exact Hc | exact Hs].
Defined.

(** The sample run: "a" answers 200 after 50ns, "b" 500 after 10ns, "c"
    times out after 200ns; the requests overlap, so the total is the
    longest of the three and not their sum. *)
Example sample_run_outcomes :
  match runCheck sample_flags sample_schedule sample_world with
  | Some s =>
      map (fun r => (Name (Endpoint_of r), IsHealthy r, StatusCode r,
                     Duration_of r, Error r)) (surfaced s) =
        [ ("Custom-2", false, 500, 10, None);
          ("Custom-3", false, 0, 200, Some "context deadline exceeded");
          ("Custom-1", true, 200, 50, None) ] /\
      last (stdout (world s)) =
        Some (Println [AString "✓ Health check complete"; AInt 3;
                       ADuration 200])
  | None => False
  end.
Proof. vm_compute. split; reflexivity. Qed.

(** C6: in every interleaving, the main goroutine gets past [wg.Wait()]
    (and so to the line that reports the elapsed time) only when every
    endpoint has its goroutine and every goroutine has exited: at the
    barrier, the main goroutine can move exactly when that is so,
    whatever the results were.  A step of one probe goroutine leaves the
    others and the main goroutine where they are, and a goroutine that
    has not exited can always take its next step, whatever its own
    result or that of the others: none is cancelled. *)
Theorem dispatch_waits_for_all f start endpoints w sched s :
  run f sched (dispatch_init start endpoints w) = Some s ->
  (past_barrier s = true ->
   length (goroutines s) = length endpoints /\
   Forall (fun g => g_pc g = GExit) (goroutines s)) /\
  (main s = MWait ->
   length (goroutines s) = length endpoints /\
   (is_Some (step_main s) <->
    Forall (fun g => g_pc g = GExit) (goroutines s))) /\
  (forall i s',
     step_goroutine f i s = Some s' ->
     main s' = main s /\
     forall j, j <> i -> goroutines s' !! j = goroutines s !! j) /\
  (forall i g,
     goroutines s !! i = Some g -> g_pc g <> GExit ->
     is_Some (step_goroutine f i s)).
Proof.
  intros Hrun.
  pose proof (dispatch_inv_run _ _ _ _ _ _ Hrun) as Hinv.
  destruct (run_constants _ _ _ _ Hrun) as [Heps _].
  cbn [dispatch_init m_endpoints] in Heps.
  split_and!.
  - intros Hpast.
    destruct (dispatch_inv_all_exited s Hinv (past_barrier_todo s Hpast)
                (inv_barrier s Hinv Hpast)) as (H1 & H2 & _).
    split; [| exact H2].
    rewrite <- (length_map g_ep), H1, Heps. reflexivity.
  - intros Hm. pose proof (inv_endpoints s Hinv) as H1.
    pose proof (inv_wg s Hinv) as H2. rewrite Hm in H1, H2.
    cbn [todo added_not_started] in H1, H2. rewrite app_nil_r in H1.
    split.
    + rewrite <- (length_map g_ep), H1, Heps. reflexivity.
    + unfold step_main. rewrite Hm.
      rewrite <- (Forall_iff (fun g => exited g = true)) by apply exited_pc.
      rewrite <- count_live_zero.
      destruct (Z.eqb_spec (wg s) 0) as [Hz | Hnz]; split.
      * intros _. lia.
      * intros _. eauto.
      * intros [? [=]].
      * intros Hz. lia.
  - intros i s' Hstep. unfold step_goroutine in Hstep.
    destruct (goroutines s !! i) as [g |]; [| done].
    destruct (g_pc g) as [| st p | result [| o pending] |];
      try destruct (checkEndpoint_send f (g_ep g) (world s)) as [[? ?] ?];
      try destruct (checkEndpoint_wait (g_ep g) st p (world s));
      try discriminate;
      injection Hstep as <-; cbn [main goroutines fmt_out];
      (split; [reflexivity |]);
      intros j Hj; apply list_lookup_insert_ne; congruence.
  - intros i g Hi Hg. unfold step_goroutine. rewrite Hi.
    destruct (g_pc g) as [| st p | result [| o pending] |];
      try destruct (checkEndpoint_send f (g_ep g) (world s)) as [[? ?] ?];
      try destruct (checkEndpoint_wait (g_ep g) st p (world s));
      try congruence; cbn; eauto.
Qed.

Lemma dispatch_waits_for_all_witness :
  let s0 := dispatch_init (clock sample_world) (build_endpoints sample_flags)
              (snd (prologue sample_flags sample_world)) in
  exists s,
    run sample_flags sample_schedule s0 = Some s /\
    returned s = true /\
    length (goroutines s) = 3%nat /\
    Forall (fun g => g_pc g = GExit) (goroutines s).
Proof.
  cbv zeta.
  edestruct (dispatch_waits_for_all sample_flags (clock sample_world)
               (build_endpoints sample_flags)
               (snd (prologue sample_flags sample_world))
               sample_schedule) as (H & _); [vm_compute; reflexivity |].
  eexists. split; [vm_compute; reflexivity |].
  split; [reflexivity |]. apply H. reflexivity.
Defined.

Lemma prologue_unfold f w :
  prologue f w =
  (clock w,
   mkWorld (clock w) (requests w) (open_bodies w)
           (stdout w ++ banner f) (network w)).
Proof.
  unfold prologue, banner, bind, fmt_out, time_Now, ret.
  destruct (verbose f); cbn; rewrite <- ?app_assoc; reflexivity.
Qed.

(** C7: given no endpoint, the dispatch loop starts no goroutine, calls
    [checkEndpoint] for none and prints no result; only the main
    goroutine moves, straight through [wg.Wait()] (the counter is zero)
    to the summary, in four steps, and no time passes on the clock: the
    elapsed time reported is the time that had passed when the loop was
    entered, which is zero when the loop follows the reading of [start]
    as it does in [runCheck]. *)
Theorem dispatch_empty f start w :
  let s0 := dispatch_init start [] w in
  (forall sched s,
     run f sched s0 = Some s ->
     sched = repeat TMain (length sched) /\
     (length sched <= 4)%nat /\
     goroutines s = [] /\ calls s = [] /\ surfaced s = [] /\ wg s = 0 /\
     clock (world s) = clock w /\ requests (world s) = requests w) /\
  (exists s,
     run f [TMain; TMain; TMain; TMain] s0 = Some s /\
     returned s = true /\
     stdout (world s) =
       (stdout w ++
        [ Println [AString rule];
          Println [AString "✓ Health check complete"; AInt 0;
                   ADuration (clock w - start)] ])%list) /\
  (exists s,
     run f [TMain; TMain; TMain; TMain]
       (let '(start0, w1) := prologue f w in dispatch_init start0 [] w1)
       = Some s /\
     returned s = true /\
     last (stdout (world s)) =
       Some (Println [AString "✓ Health check complete"; AInt 0;
                      ADuration 0])).
Proof.
  cbv zeta. split_and!.
  - intros sched s Hrun.
    do 5 (destruct sched as [| [| i] sched];
          [injection Hrun as <-; cbn; split_and!; (reflexivity || lia)
          | cbn in Hrun
          | cbn in Hrun; discriminate ]).
    discriminate.
  - eexists. split_and!; [reflexivity .. |].
    cbn. rewrite <- app_assoc. reflexivity.
  - rewrite prologue_unfold. eexists. split_and!; [reflexivity .. |].
    cbn. rewrite ?app_assoc, last_snoc, Z.sub_diag. reflexivity.
Qed.

(** ** The verbose flag *)

Ltac extend_stdout rest :=
  first [ exists rest; split; reflexivity
        | eexists (rest ++ [_])%list; rewrite !app_assoc; split; reflexivity ].

Section same_timeout.

(** Two settings of the flags with the same timeout, and the two
    prefixes the outputs differ in. *)
Variables (f f' : Flags) (a b : list Output).
Hypothesis same_timeout : timeout f' = timeout f.

Lemma step_tid_same_but_stdout t s s' :
  same_but_stdout a b s s' ->
  in_step a b (step_tid f t s) (step_tid f' t s').
Proof.
  intros [(rest & Hout & Hout') ? ? ? ? ? ? ? ? ? ? ?].
  destruct s as [[c r ob so net] n m gs st eps ca su].
  destruct s' as [[c' r' ob' so' net'] n' m' gs' st' eps' ca' su'].
  cbn in *. subst.
  destruct t as [| i]; cbn [step_tid].
  - unfold step_main; cbn.
    destruct m as [[| ep more] | ep more | | | |]; cbn;
      try destruct (n =? 0); cbn; try done;
      constructor; cbn; try done; extend_stdout rest.
  - unfold step_goroutine; cbn.
    destruct (gs !! i) as [g |]; cbn; [| done].
    destruct (g_pc g) as [| start p | result [| o pending] |]; cbn;
      try done.
    + cbv [checkEndpoint_send bind time_Now client_Get_send ret]. cbn.
      rewrite same_timeout. constructor; cbn; try done.
      extend_stdout rest.
    + cbv [checkEndpoint_wait bind client_Get_wait time_Since Body_Close
           ret].
      cbn. destruct (fl_reply p); constructor; cbn; try done;
        extend_stdout rest.
    + constructor; cbn; try done. extend_stdout rest.
    + constructor; cbn; try done. extend_stdout rest.
Qed.

Lemma run_same_but_stdout sched :
  forall s s',
    same_but_stdout a b s s' ->
    in_step a b (run f sched s) (run f' sched s').
Proof.
  induction sched as [| t sched IH]; intros s s' Hsame; cbn [run].
  - exact Hsame.
  - pose proof (step_tid_same_but_stdout t s s' Hsame) as Hstep.
    unfold in_step in Hstep.
    destruct (step_tid f t s), (step_tid f' t s'); try done.
    apply IH, Hstep.
Qed.

End same_timeout.

(** C10: the verbose flag has no influence on the probes.
    [checkEndpoint] is the same function with and without it; and for
    the same URLs, timeout, network and schedule of the goroutines, the
    run with [--verbose] and the run without reach the same goroutine
    states with the same calls of [checkEndpoint] and the same results
    printed (or neither can follow the schedule); what they print
    differs in the banner only, which has one more line, the timeout,
    under [--verbose]. *)
Theorem verbose_only_adds_timeout_line t us w sched :
  let quiet := mkFlags t us false in
  let loud := mkFlags t us true in
  (forall endpoint w0,
     checkEndpoint loud endpoint w0 = checkEndpoint quiet endpoint w0) /\
  match runCheck quiet sched w, runCheck loud sched w with
  | Some s, Some s' =>
      surfaced s' = surfaced s /\
      calls s' = calls s /\
      goroutines s' = goroutines s /\
      main s' = main s /\
      exists rest,
        stdout (world s) = (stdout w ++ banner quiet ++ rest)%list /\
        stdout (world s') = (stdout w ++ banner loud ++ rest)%list
  | None, None => True
  | _, _ => False
  end /\
  banner quiet =
    [ Println [AString "Health Checker v0.1"]; Println [AString rule];
      Println [] ] /\
  banner loud =
    [ Println [AString "Health Checker v0.1"]; Println [AString rule];
      Printf "⚙️ Timeout: %ds\n" [AInt t]; Println [] ].
Proof.
  cbv zeta. split_and!; try reflexivity.
  set (quiet := mkFlags t us false). set (loud := mkFlags t us true).
  assert (Hinit : same_but_stdout (stdout w ++ banner quiet)
                    (stdout w ++ banner loud)
                    (runCheck_init quiet w) (runCheck_init loud w)).
  { unfold runCheck_init. rewrite !prologue_unfold.
    constructor; cbn; try done. exists []. rewrite !app_nil_r. done. }
  pose proof (run_same_but_stdout quiet loud _ _ eq_refl sched _ _ Hinit)
    as Hrun.
  unfold in_step in Hrun. unfold runCheck.
  destruct (run quiet sched _) as [s |], (run loud sched _) as [s' |];
    try done.
  destruct Hrun as [(rest & Hout & Hout') ? ? ? ? ? ? ? ? ? ? ?].
  split_and!; try done.
  exists rest. rewrite !app_assoc. done.
Qed.

(** ** Further properties of the probe and of the endpoint list *)

(** X1: the report [printResult] prints for the result of
    [checkEndpoint] is a line with the verdict and the name of the
    endpoint, a line with its URL, the detail, and an empty line.  After
    a response the verdict is HEALTHY exactly for a status in
    [200, 400) and the detail is the status and the response time; after
    a failure the verdict is UNHEALTHY and the detail is the error
    alone, the time the request took is not printed. *)
Theorem report_of_probe f endpoint w :
  let r := fst (checkEndpoint f endpoint w) in
  exists status detail,
    printResult r =
      ([ Printf "%s [%s]\n" [AString status; AString (Name endpoint)];
         Printf "  URL: %s\n" [AString (URL endpoint)] ]
       ++ detail ++ [ Println [] ])%list /\
    match get_result f endpoint w with
    | GetOK resp =>
        status = (if (200 <=? resp_StatusCode resp)
                     && (resp_StatusCode resp <? 400)
                  then "✓ HEALTHY" else "✗ UNHEALTHY") /\
        detail = [ Printf "  Status: %d\n" [AInt (resp_StatusCode resp)];
                   Printf "  Response Time: %v\n"
                     [ADuration (Duration_of r)] ]
    | GetFail err =>
        status = "✗ UNHEALTHY" /\
        detail = [ Printf "  Error: %v\n" [AError err] ]
    end.
Proof.
  cbv zeta. rewrite checkEndpoint_unfold, get_result_unfold. cbv zeta.
  destruct (reply _) as [code | e]; unfold printResult;
    cbn [IsHealthy Error StatusCode Duration_of Endpoint_of resp_StatusCode].
  - eexists _, _. split; [reflexivity |].
    destruct ((200 <=? code) && (code <? 400)); split; reflexivity.
  - eexists _, _. split; [reflexivity |]. split; reflexivity.
Qed.

Lemma Sprintf_Custom_inj n m : Sprintf_Custom n = Sprintf_Custom m -> n = m.
Proof.
  unfold Sprintf_Custom. cbn. intros [= H]. apply pretty_nat_inj. exact H.
Qed.

Lemma map_Name_imap (name : nat -> string) (us : list string) :
  map Name (imap (fun j url => {| Name := name j; URL := url |}) us) =
  map name (seq 0 (length us)).
Proof.
  revert name. induction us as [| u us IH]; intros name; [reflexivity |].
  cbn [imap map Name length seq]. f_equal.
  rewrite <- seq_shift, map_map. apply (IH (name ∘ S)).
Qed.

(** X2: no two endpoints of a run have the same name, also when the
    same URL is given twice: the names tell the reports apart. *)
Theorem build_endpoints_names_distinct f :
  NoDup (map Name (build_endpoints f)).
Proof.
  unfold build_endpoints.
  destruct (urls f) as [| u us]; cbn [length Nat.ltb Nat.leb].
  - unfold default_endpoints. cbn [map Name].
    repeat (apply NoDup_cons; split;
            [ rewrite ?elem_of_cons, elem_of_nil; intros H;
              repeat (destruct H as [H | H]; [discriminate |]); exact H
            | ]).
    apply NoDup_nil_2.
  - rewrite range_urls_imap, app_nil_l, map_Name_imap.
    apply (NoDup_fmap_2_strong (fun j => Sprintf_Custom (0 + j + 1))).
    + intros j k _ _ H. apply Sprintf_Custom_inj in H. lia.
    + apply NoDup_seq.
Qed.

(** X3: the timeout flag, counted in seconds, reaches the HTTP client
    and the request unchanged as long as its nanoseconds fit into 64
    bits, that is between -9223372036 and 9223372036 seconds; one second
    more and the product wraps around to a negative timeout. *)
Theorem client_timeout_in_range f endpoint w :
  -9223372036 <= timeout f <= 9223372036 ->
  client_Timeout (client_of f) = timeout f * 1000000000 /\
  get_result f endpoint w =
    match reply (network w (requests w) (URL endpoint)
                         (timeout f * 1000000000) (clock w)) with
    | Responded code => GetOK (mkResponse code (requests w))
    | Failed e => GetFail e
    end /\
  client_Timeout (client_of (mkFlags 9223372037 (urls f) (verbose f)))
    = -9223372036709551616.
Proof.
  intros Hrange.
  assert (Hwrap : wrap64 (timeout f * Second) = timeout f * 1000000000).
  { unfold wrap64, Second.
    rewrite Z.mod_small; [lia |].
    change (2 ^ 63) with 9223372036854775808.
    change (2 ^ 64) with 18446744073709551616. lia. }
  split_and!.
  - exact Hwrap.
  - rewrite get_result_unfold, Hwrap. reflexivity.
  - reflexivity.
Qed.

Lemma client_timeout_in_range_witness :
  -9223372036 <= timeout default_flags <= 9223372036 /\
  client_Timeout (client_of default_flags) = 10000000000.
Proof.
  split; [cbn; lia |].
  apply (client_timeout_in_range default_flags
           {| Name := "Github API"; URL := "https://api.github.com" |}
           sample_world).
  cbn. lia.
Defined.

(** ** Further invariants of a run *)

(** An invariant that holds at the start and is kept by the steps of the
    main goroutine and of the probe goroutines holds after any schedule. *)
Lemma run_invariant (P : State -> Prop) f sched : forall s0 s,
  dispatch_inv s0 -> P s0 ->
  (forall s1 s2, dispatch_inv s1 -> P s1 -> step_main s1 = Some s2 -> P s2) ->
  (forall s1 s2, dispatch_inv s1 -> P s1 -> probe_step f s1 s2 -> P s2) ->
  run f sched s0 = Some s -> P s.
Proof.
  induction sched as [| t sched IH]; intros s0 s Hinv HP Hmain Hprobe;
    cbn [run].
  - intros [= <-]. exact HP.
  - destruct (step_tid f t s0) as [s1 |] eqn:Hstep; [| done].
    apply IH; try assumption.
    + apply (dispatch_inv_step f s0); [exists t |]; assumption.
    + destruct t as [| i]; cbn [step_tid] in Hstep.
      * eapply Hmain; eassumption.
      * eapply Hprobe; [eassumption .. |].
        apply (step_goroutine_inv f i). exact Hstep.
Qed.

(** A probe goroutine moves only before the main goroutine has passed
    the barrier. *)
Lemma probe_step_before_barrier f s s' :
  dispatch_inv s -> probe_step f s s' -> past_barrier s = false.
Proof.
  intros Hinv Hstep. destruct (past_barrier s) eqn:Hpast; [| reflexivity].
  pose proof (inv_barrier s Hinv Hpast) as Hzero.
  apply count_live_zero in Hzero.
  assert (Hg : exists g, g ∈ goroutines s /\ g_pc g <> GExit).
  { destruct Hstep; exists g; (split; [rewrite Hgs; set_solver |]);
      rewrite Hpc; discriminate. }
  destruct Hg as (g & Hin & Hne).
  rewrite Forall_forall in Hzero. apply Hzero, exited_pc in Hin. done.
Qed.

Lemma step_main_world s s' :
  step_main s = Some s' ->
  clock (world s') = clock (world s) /\
  requests (world s') = requests (world s) /\
  open_bodies (world s') = open_bodies (world s) /\
  network (world s') = network (world s) /\
  calls s' = calls s /\ surfaced s' = surfaced s /\
  m_start s' = m_start s /\
  (goroutines s' = goroutines s \/
   exists ep, goroutines s' = (goroutines s ++ [mkGoroutine ep GCall])%list).
Proof.
  unfold step_main.
  destruct (main s) as [[| ep rest] | ep rest | | | |];
    try destruct (wg s =? 0); try discriminate;
    intros [= <-]; cbn; split_and!; eauto.
Qed.

Lemma timed_mono start0 now now' g :
  now <= now' -> timed start0 now g -> timed start0 now' g.
Proof. unfold timed. destruct (g_pc g); lia. Qed.

Lemma time_inv_main_step s s' :
  time_inv s -> step_main s = Some s' -> time_inv s'.
Proof.
  intros [Hc Hg Hs] Hstep.
  apply step_main_world in Hstep as (Ec & _ & _ & _ & _ & Es & Em & Eg).
  constructor; rewrite ?Ec, ?Es, ?Em; try assumption.
  destruct Eg as [-> | [ep ->]]; [assumption |].
  apply Forall_app. split; [assumption |]. repeat constructor.
Qed.

Lemma checkEndpoint_wait_clock endpoint start p w result w' :
  checkEndpoint_wait endpoint start p w = (result, w') ->
  clock w' = Z.max (clock w) (fl_done_at p) /\
  Duration_of result = clock w' - start /\
  Endpoint_of result = endpoint /\
  verdict result = reply_verdict (fl_reply p) /\
  requests w' = requests w /\
  open_bodies w' ⊆ open_bodies w /\
  network w' = network w /\
  stdout w' = stdout w.
Proof.
  cbv [checkEndpoint_wait bind client_Get_wait time_Since Body_Close ret].
  destruct (fl_reply p); intros [= <- <-]; cbn; split_and!;
    try reflexivity; set_solver.
Qed.

Lemma checkEndpoint_send_world f endpoint w start p w' :
  checkEndpoint_send f endpoint w = ((start, p), w') ->
  start = clock w /\
  fl_reply p = reply (network w (requests w) (URL endpoint)
                              (wrap64 (timeout f * Second)) (clock w)) /\
  clock w' = clock w /\
  requests w' = S (requests w) /\
  open_bodies w' = open_bodies w /\
  network w' = network w /\
  stdout w' = stdout w.
Proof.
  cbv [checkEndpoint_send bind time_Now client_Get_send ret].
  intros [= <- <- <-]; cbn; split_and!; reflexivity.
Qed.

Lemma time_inv_probe_step f s s' :
  time_inv s -> probe_step f s s' -> time_inv s'.
Proof.
  intros [Hc Hg Hs] Hstep.
  destruct Hstep; subst s'; rewrite Hgs in Hg;
    apply Forall_app in Hg as [Hg1 Hg2];
    apply Forall_cons in Hg2 as [Hg0 Hg2];
    unfold timed in Hg0; rewrite Hpc in Hg0.
  - apply checkEndpoint_send_world in Hrun as (-> & _ & Ec & _).
    constructor; cbn [m_start world clock goroutines surfaced];
      rewrite ?Ec; try assumption.
    apply Forall_app. split; [assumption |].
    apply Forall_cons. split; [| assumption].
    unfold timed. cbn. lia.
  - apply checkEndpoint_wait_clock in Hrun as (Ec & Hd & _).
    assert (Hle : clock (world s) <= clock w) by lia.
    constructor; cbn [m_start world clock goroutines surfaced].
    + lia.
    + apply Forall_app. split; [| apply Forall_cons; split].
      * eapply Forall_impl; [exact Hg1 |]. intros g0. apply timed_mono, Hle.
      * unfold timed. cbn. lia.
      * eapply Forall_impl; [exact Hg2 |]. intros g0. apply timed_mono, Hle.
    + eapply Forall_impl; [exact Hs |]. cbn. intros r Hr. lia.
  - constructor; cbn [m_start world clock goroutines surfaced fmt_out snd];
      try assumption.
    apply Forall_app. split; [assumption |].
    apply Forall_cons. split; [| assumption]. unfold timed. cbn. exact Hg0.
  - constructor; cbn [m_start world clock goroutines surfaced];
      try assumption.
    + apply Forall_app. split; [assumption |].
      apply Forall_cons. split; [| assumption]. unfold timed. cbn. done.
    + apply Forall_app. split; [assumption |]. repeat constructor; lia.
Qed.

Lemma time_inv_run f sched start endpoints w s :
  start <= clock w ->
  run f sched (dispatch_init start endpoints w) = Some s ->
  time_inv s.
Proof.
  intros Hstart. apply run_invariant.
  - apply dispatch_inv_init.
  - constructor; cbn; [exact Hstart | constructor | constructor].
  - intros s1 s2 _. apply time_inv_main_step.
  - intros s1 s2 _. apply time_inv_probe_step.
Qed.




Lemma source_inv_main_step f w0 s s' :
  source_inv f w0 s -> step_main s = Some s' -> source_inv f w0 s'.
Proof.
  intros [Hn Hg Hs] Hstep.
  apply step_main_world in Hstep as (_ & _ & _ & En & _ & Es & _ & Eg).
  constructor; rewrite ?En, ?Es; try assumption.
  destruct Eg as [-> | [ep ->]]; [assumption |].
  apply Forall_app. split; [assumption |]. repeat constructor.
Qed.

Lemma source_inv_probe_step f w0 s s' :
  dispatch_inv s -> source_inv f w0 s -> probe_step f s s' ->
  source_inv f w0 s'.
Proof.
  intros Hinv [Hn Hg Hs] Hstep.
  pose proof (inv_own_result s Hinv) as Hown.
  destruct Hstep; subst s'; rewrite Hgs in Hg, Hown;
    apply Forall_app in Hg as [Hg1 Hg2];
    apply Forall_cons in Hg2 as [Hg0 Hg2];
    apply Forall_app in Hown as [_ Hown];
    apply Forall_cons in Hown as [Hown _];
    unfold sourced in Hg0; unfold own_result in Hown;
    rewrite Hpc in Hg0, Hown.
  - apply checkEndpoint_send_world in Hrun as (_ & Hp & _ & _ & _ & En & _).
    constructor; cbn [world goroutines surfaced]; rewrite ?En;
      try assumption.
    apply Forall_app. split; [assumption |].
    apply Forall_cons. split; [| assumption].
    unfold sourced. cbn [g_pc g_ep]. rewrite Hp, Hn. eexists _, _. reflexivity.
  - apply checkEndpoint_wait_clock in Hrun
      as (_ & _ & _ & Hv & _ & _ & En & _).
    constructor; cbn [world goroutines surfaced]; rewrite ?En;
      try assumption.
    apply Forall_app. split; [assumption |].
    apply Forall_cons. split; [| assumption].
    unfold sourced. cbn [g_pc g_ep]. exists (fl_reply p). split; assumption.
  - constructor; cbn [world goroutines surfaced fmt_out snd network];
      try assumption.
    apply Forall_app. split; [assumption |].
    apply Forall_cons. split; [| assumption]. exact Hg0.
  - constructor; cbn [world goroutines surfaced]; try assumption.
    + apply Forall_app. split; [assumption |].
      apply Forall_cons. split; [| assumption]. exact I.
    + apply Forall_app. split; [assumption |].
      apply Forall_cons. split; [| constructor].
      rewrite Hown. exact Hg0.
Qed.

Lemma source_inv_run f sched start endpoints w s :
  run f sched (dispatch_init start endpoints w) = Some s ->
  source_inv f w s.
Proof.
  apply run_invariant.
  - apply dispatch_inv_init.
  - constructor; cbn; [reflexivity | constructor | constructor].
  - intros s1 s2 _. apply source_inv_main_step.
  - intros s1 s2. apply source_inv_probe_step.
Qed.

Lemma perm_snoc_middle {A} (S D1 d D2 : list A) (x : A) :
  ((S ++ D1 ++ d ++ D2) ++ [x] ≡ₚ S ++ D1 ++ (d ++ [x]) ++ D2)%list.
Proof.
  rewrite <- !app_assoc. do 3 apply Permutation_app_head.
  apply Permutation_app_comm.
Qed.

Lemma perm_move_front {A} (S D1 d D2 : list A) :
  (S ++ D1 ++ d ++ D2 ≡ₚ (S ++ d) ++ D1 ++ D2)%list.
Proof.
  rewrite <- app_assoc. apply Permutation_app_head.
  rewrite !app_assoc. apply Permutation_app_tail, Permutation_app_comm.
Qed.

Lemma printed_so_far_split gs1 g gs2 dones :
  Forall2 printed_so_far (gs1 ++ g :: gs2) dones ->
  exists d1 d d2,
    dones = (d1 ++ d :: d2)%list /\
    Forall2 printed_so_far gs1 d1 /\ printed_so_far g d /\
    Forall2 printed_so_far gs2 d2.
Proof.
  intros H. apply Forall2_app_inv_l in H as (d1 & k & H1 & H2 & ->).
  apply Forall2_cons_inv_l in H2 as (d & d2 & Hd & H2 & ->).
  exists d1, d, d2. done.
Qed.

Lemma epilogue_before_barrier s : past_barrier s = false -> epilogue s = [].
Proof. unfold past_barrier, epilogue. destruct (main s); done. Qed.

Lemma output_inv_main_step out0 s s' :
  output_inv out0 s -> step_main s = Some s' -> output_inv out0 s'.
Proof.
  intros (body & dones & Hout & HF2 & Hperm & Hsub & Hsurf).
  unfold step_main, epilogue in *.
  destruct (main s) as [[| ep rest] | ep rest | | | |] eqn:Hm;
    try match goal with
        | |- context [wg s =? 0] => destruct (wg s =? 0)
        end; try discriminate;
    intros [= <-]; unfold output_inv, epilogue;
    cbn [main world goroutines surfaced stdout fmt_out time_Since snd fst
         clock m_start m_endpoints].
  - exists body, dones. done.
  - exists body, dones. done.
  - exists body, (dones ++ [[]])%list. split_and!; try done.
    + apply Forall2_app; [done |]. repeat constructor.
    + rewrite concat_app. cbn. rewrite !app_nil_r. done.
    + apply Forall_app. split; [done |].
      repeat constructor. apply sublist_nil_l.
  - exists body, dones. done.
  - exists body, dones. split_and!; try done.
    rewrite Hout, app_nil_r, <- app_assoc. done.
  - exists body, dones. split_and!; try done.
    rewrite Hout, <- !app_assoc. done.
Qed.

Lemma output_inv_probe_step f out0 s s' :
  dispatch_inv s -> output_inv out0 s -> probe_step f s s' ->
  output_inv out0 s'.
Proof.
  intros Hinv (body & dones & Hout & HF2 & Hperm & Hsub & Hsurf) Hstep.
  pose proof (probe_step_before_barrier f s s' Hinv Hstep) as Hpast.
  rewrite (epilogue_before_barrier s Hpast), app_nil_r in Hout.
  assert (Hepi : forall w n gs ca su,
             epilogue (mkState w n (main s) gs (m_start s) (m_endpoints s)
                               ca su) = []).
  { intros. apply epilogue_before_barrier. exact Hpast. }
  destruct Hstep; subst s'; rewrite Hgs in HF2;
    apply printed_so_far_split in HF2
      as (d1 & d & d2 & -> & HF1 & Hd & HF3);
    unfold printed_so_far in Hd; rewrite Hpc in Hd;
    unfold output_inv; rewrite Hepi;
    cbn [world goroutines surfaced].
  - apply checkEndpoint_send_world in Hrun as (_ & _ & _ & _ & _ & _ & Eo).
    exists body, (d1 ++ d :: d2)%list. rewrite Eo, Hout, app_nil_r.
    split_and!; try done.
    apply Forall2_app; [done |]. constructor; done.
  - apply checkEndpoint_wait_clock in Hrun
      as (_ & _ & _ & _ & _ & _ & _ & Eo).
    exists body, (d1 ++ d :: d2)%list. rewrite Eo, Hout, app_nil_r.
    split_and!; try done.
    apply Forall2_app; [done |]. constructor; [| done].
    unfold printed_so_far. cbn [g_pc]. subst d. done.
  - exists (body ++ [o])%list, (d1 ++ (d ++ [o]) :: d2)%list.
    cbn [fmt_out snd stdout]. rewrite Hout, app_nil_r, <- app_assoc.
    apply Forall_app in Hsub as [Hs1 Hs2].
    apply Forall_cons in Hs2 as [Hs0 Hs2].
    split_and!; try done.
    + apply Forall2_app; [done |]. constructor; [| done].
      unfold printed_so_far. cbn [g_pc]. rewrite Hd, <- app_assoc. done.
    + rewrite Hperm, !concat_app, !concat_cons. apply perm_snoc_middle.
    + apply Forall_app. split; [| apply Forall_cons; split].
      * eapply Forall_impl; [exact Hs1 |]. intros l. apply sublist_inserts_r.
      * apply sublist_app; done.
      * eapply Forall_impl; [exact Hs2 |]. intros l. apply sublist_inserts_r.
    + eapply Forall_impl; [exact Hsurf |]. intros r. apply sublist_inserts_r.
  - exists body, (d1 ++ [] :: d2)%list. rewrite Hout, app_nil_r.
    rewrite app_nil_r in Hd.
    apply Forall_app in Hsub as [Hs1 Hs2].
    apply Forall_cons in Hs2 as [Hs0 Hs2].
    split_and!; try done.
    + apply Forall2_app; [done |]. constructor; done.
    + rewrite Hperm, map_app, !concat_app, !concat_cons. cbn [map concat].
      rewrite Hd, !app_nil_r. cbn [app]. apply perm_move_front.
    + apply Forall_app. split; [done |].
      apply Forall_cons. split; [apply sublist_nil_l | done].
    + apply Forall_app. split; [done |]. repeat constructor.
      rewrite Hd. done.
Qed.

Lemma output_inv_run f sched start endpoints w s :
  run f sched (dispatch_init start endpoints w) = Some s ->
  output_inv (stdout w) s.
Proof.
  apply run_invariant.
  - apply dispatch_inv_init.
  - exists [], []. cbn. rewrite app_nil_r. split_and!; constructor.
  - intros s1 s2 _. apply output_inv_main_step.
  - intros s1 s2. apply output_inv_probe_step.
Qed.

(** ** Properties of whole runs *)

Lemma runCheck_init_unfold f w :
  runCheck_init f w =
  dispatch_init (clock w) (build_endpoints f)
    (mkWorld (clock w) (requests w) (open_bodies w)
             (stdout w ++ banner f) (network w)).
Proof. unfold runCheck_init. rewrite prologue_unfold. reflexivity. Qed.

Lemma printed_so_far_exited gs dones :
  Forall (fun g => g_pc g = GExit) gs ->
  Forall2 printed_so_far gs dones ->
  concat dones = [].
Proof.
  intros Hall HF2. induction HF2 as [| g d gs dones Hd _ IH]; [reflexivity |].
  apply Forall_cons in Hall as [Hg Hall].
  unfold printed_so_far in Hd. rewrite Hg in Hd. subst d.
  cbn. apply IH, Hall.
Qed.

Lemma returned_past_barrier s : returned s = true -> past_barrier s = true.
Proof. unfold returned, past_barrier. destruct (main s); done. Qed.

(** X4: when [runCheck] returns, standard output holds, after what was
    there before: the banner; then the lines of the reports of all the
    results, each report with its lines in order but possibly with lines
    of other reports in between, no line lost and none added; then the
    rule and, last, the summary with the number of endpoints and the
    time since [start].  There is one report per endpoint. *)
Theorem runCheck_output f sched w s :
  runCheck f sched w = Some s ->
  returned s = true ->
  exists body,
    stdout (world s) =
      (stdout w ++ banner f ++ body ++
       [ Println [AString rule];
         Println [AString "✓ Health check complete";
                  AInt (Z.of_nat (length (build_endpoints f)));
                  ADuration (clock (world s) - clock w)] ])%list /\
    body ≡ₚ concat (map printResult (surfaced s)) /\
    Forall (fun r => printResult r `sublist_of` body) (surfaced s) /\
    map Endpoint_of (surfaced s) ≡ₚ build_endpoints f.
Proof.
  unfold runCheck. rewrite runCheck_init_unfold. intros Hrun Hret.
  pose proof (dispatch_inv_run _ _ _ _ _ _ Hrun) as Hinv.
  destruct (run_constants _ _ _ _ Hrun) as [Heps Hstart].
  cbn [dispatch_init m_endpoints m_start] in Heps, Hstart.
  pose proof (returned_past_barrier s Hret) as Hpast.
  destruct (dispatch_inv_all_exited s Hinv (past_barrier_todo s Hpast)
              (inv_barrier s Hinv Hpast)) as (_ & Hexit & _ & Hsurf).
  destruct (output_inv_run _ _ _ _ _ _ Hrun)
    as (body & dones & Hout & HF2 & Hperm & _ & Hsub).
  rewrite (printed_so_far_exited _ _ Hexit HF2), app_nil_r in Hperm.
  exists body. split_and!; try done.
  - rewrite Hout. cbn [stdout]. unfold epilogue, returned in *.
    destruct (main s); try discriminate.
    rewrite Heps, Hstart, <- !app_assoc. reflexivity.
  - rewrite Hsurf, Heps. reflexivity.
Qed.

Lemma runCheck_output_witness :
  exists s body,
    runCheck sample_flags sample_schedule sample_world = Some s /\
    returned s = true /\
    stdout (world s) =
      (stdout sample_world ++ banner sample_flags ++ body ++
       [ Println [AString rule];
         Println [AString "✓ Health check complete"; AInt 3;
                  ADuration (clock (world s) - clock sample_world)] ])%list.
Proof.
  edestruct (runCheck_output sample_flags sample_schedule sample_world)
    as (body & Hout & _); [vm_compute; reflexivity | reflexivity |].
  eexists _, body. split; [vm_compute; reflexivity |].
  split; [reflexivity | exact Hout].
Defined.

(** X5: no response time that is reported is negative or longer than
    the total the summary reports: in every state of a run, the duration
    of every result printed so far lies between zero and the time since
    the [start] of [runCheck]; the clock never goes back. *)
Theorem runCheck_total_covers_durations f sched w s :
  runCheck f sched w = Some s ->
  m_start s = clock w /\
  clock w <= clock (world s) /\
  forall r, r ∈ surfaced s ->
    0 <= Duration_of r <= clock (world s) - clock w.
Proof.
  unfold runCheck. rewrite runCheck_init_unfold. intros Hrun.
  destruct (run_constants _ _ _ _ Hrun) as [_ Hstart].
  cbn [dispatch_init m_start] in Hstart.
  destruct (time_inv_run _ _ _ _ _ _ (Z.le_refl _) Hrun) as [Hc _ Hs].
  rewrite Hstart in Hc, Hs. split_and!; try done.
  rewrite Forall_forall in Hs. exact Hs.
Qed.

Lemma runCheck_total_covers_durations_witness :
  exists s,
    runCheck sample_flags sample_schedule sample_world = Some s /\
    forall r, r ∈ surfaced s ->
      0 <= Duration_of r <= clock (world s) - clock sample_world.
Proof.
  edestruct (runCheck_total_covers_durations sample_flags sample_schedule
               sample_world) as (_ & _ & H); [vm_compute; reflexivity |].
  eexists. split; [vm_compute; reflexivity | exact H].
Defined.



(** X7: when the answer of the network to a request depends on its URL
    and timeout only (not on when it is sent or on how many requests
    went before), the verdict of every result of a run, that is its
    health, status code and error, is the one [checkEndpoint] gives for
    that endpoint alone: it does not depend on the schedule nor on what
    happens to the other endpoints. *)
Theorem verdicts_independent f sched w s :
  (forall n n' url t c c',
     reply (network w n url t c) = reply (network w n' url t c')) ->
  runCheck f sched w = Some s ->
  forall r, r ∈ surfaced s ->
    verdict r = verdict (fst (checkEndpoint f (Endpoint_of r) w)).
Proof.
  unfold runCheck. rewrite runCheck_init_unfold. intros Hstable Hrun r Hr.
  destruct (source_inv_run _ _ _ _ _ _ Hrun) as [_ _ Hs].
  rewrite Forall_forall in Hs.
  destruct (Hs r Hr) as (rep & (n & c & ->) & Hv).
  cbn [network] in Hv.
  rewrite Hv, checkEndpoint_unfold. cbv zeta.
  rewrite (Hstable n (requests w) _ _ c (clock w)). clear Hv.
  destruct (reply _); reflexivity.
Qed.

Lemma verdicts_independent_witness :
  exists s,
    runCheck sample_flags sample_schedule sample_world = Some s /\
    forall r, r ∈ surfaced s ->
      verdict r =
      verdict (fst (checkEndpoint sample_flags (Endpoint_of r) sample_world)).
Proof.
  eexists. split; [vm_compute; reflexivity |].
  apply (verdicts_independent sample_flags sample_schedule sample_world).
  - intros n n' url t c c'. reflexivity.
  - vm_compute. reflexivity.
Defined.

Lemma count_live_le_length gs : count_live gs <= Z.of_nat (length gs).
Proof.
  induction gs as [| g gs IH]; cbn [count_live length]; [lia |].
  destruct (exited g); lia.
Qed.

(** X8: the counter of the wait group is never negative, so that
    [wg.Done()] never runs on a counter that is zero, and never above
    the number of endpoints; it is the number of goroutines that have
    not exited, plus one between [wg.Add(1)] and the [go] statement. *)
Theorem waitgroup_counter_bounds f start endpoints w sched s :
  run f sched (dispatch_init start endpoints w) = Some s ->
  0 <= wg s <= Z.of_nat (length endpoints) /\
  wg s = count_live (goroutines s) + added_not_started (main s) /\
  (forall i s', step_goroutine f i s = Some s' -> 0 <= wg s').
Proof.
  intros Hrun.
  assert (Hbounds : forall sched' s',
            run f sched' (dispatch_init start endpoints w) = Some s' ->
            0 <= wg s' <= Z.of_nat (length endpoints) /\
            wg s' = count_live (goroutines s') + added_not_started (main s')).
  { clear. intros sched s Hrun.
    pose proof (dispatch_inv_run _ _ _ _ _ _ Hrun) as Hinv.
    destruct (run_constants _ _ _ _ Hrun) as [Heps _].
    cbn [dispatch_init m_endpoints] in Heps.
    pose proof (inv_wg s Hinv) as Hwg.
    pose proof (inv_endpoints s Hinv) as Hlen.
    apply (f_equal length) in Hlen.
    rewrite length_app, length_map, Heps in Hlen.
    pose proof (count_live_nonneg (goroutines s)).
    pose proof (count_live_le_length (goroutines s)).
    split; [| exact Hwg].
    unfold added_not_started, todo in *.
    destruct (main s); cbn [length] in Hlen; lia. }
  destruct (Hbounds sched s Hrun) as [H1 H2].
  split; [exact H1 |]. split; [exact H2 |].
  intros i s' Hstep.
  apply (Hbounds (sched ++ [TProbe i])%list).
  rewrite run_app, Hrun. cbn [run step_tid]. rewrite Hstep. reflexivity.
Qed.

Lemma waitgroup_counter_bounds_witness :
  exists s,
    run sample_flags (repeat TMain 7 ++ [TProbe 1; TProbe 1])%list
        (dispatch_init 0 (build_endpoints sample_flags) sample_world)
      = Some s /\
    0 <= wg s <= 3.
Proof.
  edestruct (waitgroup_counter_bounds sample_flags 0
               (build_endpoints sample_flags) sample_world
               (repeat TMain 7 ++ [TProbe 1; TProbe 1])%list)
    as (H & _); [vm_compute; reflexivity |].
  eexists. split; [vm_compute; reflexivity | exact H].
Defined.

(** Standard output only grows. *)
Lemma stdout_grows_step f s s' :
  step f s s' ->
  exists more, stdout (world s') = (stdout (world s) ++ more)%list.
Proof.
  intros [[| i] Hstep]; cbn [step_tid] in Hstep.
  - unfold step_main in Hstep.
    destruct (main s) as [[| ep rest] | ep rest | | | |];
      try match goal with
          | H : context [wg s =? 0] |- _ => destruct (wg s =? 0)
          end; try discriminate;
      injection Hstep as <-; cbn;
      first [ exists []; rewrite app_nil_r; reflexivity
            | eexists [_]; reflexivity ].
  - apply step_goroutine_inv in Hstep. destruct Hstep; subst s'; cbn [world].
    + apply checkEndpoint_send_world in Hrun as (_ & _ & _ & _ & _ & _ & ->).
      exists []. rewrite app_nil_r. reflexivity.
    + apply checkEndpoint_wait_clock in Hrun
        as (_ & _ & _ & _ & _ & _ & _ & ->).
      exists []. rewrite app_nil_r. reflexivity.
    + exists [o]. reflexivity.
    + exists []. rewrite app_nil_r. reflexivity.
Qed.

Lemma stdout_grows_run f sched : forall s s',
  run f sched s = Some s' ->
  exists more, stdout (world s') = (stdout (world s) ++ more)%list.
Proof.
  induction sched as [| t sched IH]; intros s s'; cbn [run].
  - intros [= <-]. exists []. rewrite app_nil_r. reflexivity.
  - destruct (step_tid f t s) as [s1 |] eqn:Hstep; [| done].
    intros Hrun. apply IH in Hrun as [more2 ->].
    destruct (stdout_grows_step f s s1) as [more1 ->]; [exists t; done |].
    exists (more1 ++ more2)%list. rewrite app_assoc. reflexivity.
Qed.

(** The first lines of two reports, printed one after the other. *)
Lemma two_headers_first f start e1 e2 w :
  exists s st1 st2,
    run f [TMain; TMain; TMain; TMain; TProbe 0; TProbe 0; TProbe 0;
           TProbe 1; TProbe 1; TProbe 1]%nat
        (dispatch_init start [e1; e2] w) = Some s /\
    stdout (world s) =
      (stdout w ++
       [ Printf "%s [%s]\n" [AString st1; AString (Name e1)];
         Printf "%s [%s]\n" [AString st2; AString (Name e2)] ])%list.
Proof.
  cbn [run step_tid step_main dispatch_init main].
  cbv [step_goroutine checkEndpoint_send checkEndpoint_wait bind time_Now
       client_Get_send client_Get_wait time_Since Body_Close ret fmt_out].
  cbn -[Z.max Z.mul wrap64 Z.leb Z.ltb].
  destruct (reply _); cbn -[Z.max Z.mul wrap64 Z.leb Z.ltb];
    destruct (reply _); cbn -[Z.max Z.mul wrap64 Z.leb Z.ltb];
    eexists _, _, _; (split; [reflexivity |]);
    cbn [world stdout]; rewrite <- app_assoc; reflexivity.
Qed.

(** X9: a report is not printed as a block.  For any two endpoints there
    is a complete run in which the first line of the report of the
    second endpoint comes right after the first line of the report of
    the first, before the URL line that belongs to it: the lines of
    reports of different goroutines can be interleaved on standard
    output. *)
Theorem reports_can_interleave f start e1 e2 w :
  exists sched s st1 st2 rest,
    run f sched (dispatch_init start [e1; e2] w) = Some s /\
    returned s = true /\
    stdout (world s) =
      (stdout w ++
       [ Printf "%s [%s]\n" [AString st1; AString (Name e1)];
         Printf "%s [%s]\n" [AString st2; AString (Name e2)] ] ++
       rest)%list.
Proof.
  destruct (two_headers_first f start e1 e2 w) as (s1 & st1 & st2 & Hrun & Hout).
  pose proof (dispatch_inv_run _ _ _ _ _ _ Hrun) as Hinv.
  destruct (dispatch_terminates f s1 Hinv) as (sched' & s & Hrun' & Hret).
  destruct (stdout_grows_run f sched' s1 s Hrun') as [rest Hgrow].
  eexists (_ ++ sched')%list, s, st1, st2, rest.
  rewrite run_app, Hrun. split_and!; try done.
  rewrite Hgrow, Hout, <- app_assoc. reflexivity.
Qed.

(** The results printed so far are never taken back. *)
Lemma surfaced_grows_run f sched : forall s s',
  run f sched s = Some s' ->
  exists more, surfaced s' = (surfaced s ++ more)%list.
Proof.
  induction sched as [| t sched IH]; intros s s'; cbn [run].
  - intros [= <-]. exists []. rewrite app_nil_r. reflexivity.
  - destruct (step_tid f t s) as [s1 |] eqn:Hstep; [| done].
    intros Hrun. apply IH in Hrun as [more2 ->].
    assert (exists more1, surfaced s1 = (surfaced s ++ more1)%list)
      as [more1 ->].
    { destruct t as [| i]; cbn [step_tid] in Hstep.
      - apply step_main_world in Hstep as (_ & _ & _ & _ & _ & -> & _).
        exists []. rewrite app_nil_r. reflexivity.
      - apply step_goroutine_inv in Hstep.
        destruct Hstep; subst s1; cbn [surfaced];
          first [ exists []; rewrite app_nil_r; reflexivity
                | eexists [_]; reflexivity ]. }
    exists (more1 ++ more2)%list. rewrite app_assoc. reflexivity.
Qed.

(** A goroutine inside [printResult] can print what is left and exit,
    without waiting for anyone. *)
Lemma probe_prints_to_exit f i ep r : forall pending s,
  goroutines s !! i = Some (mkGoroutine ep (GPrint r pending)) ->
  exists s',
    run f (replicate (S (length pending)) (TProbe i)) s = Some s' /\
    goroutines s' = <[i := mkGoroutine ep GExit]> (goroutines s) /\
    surfaced s' = (surfaced s ++ [r])%list /\
    main s' = main s.
Proof.
  induction pending as [| o pending IH]; intros s Hi;
    cbn [length]; rewrite replicate_S; cbn [run step_tid];
    unfold step_goroutine at 1; rewrite Hi; cbn [g_pc g_ep].
  - eexists. split; [reflexivity |]. done.
  - destruct (fmt_out o (world s)) as [u w1].
    match goal with
    | |- context [run f _ ?s1] =>
        destruct (IH s1) as (s' & Hrun & Hgs & Hsurf & Hmain)
    end.
    { cbn [goroutines]. apply list_lookup_insert_eq.
      eapply lookup_lt_Some, Hi. }
    exists s'. split; [exact Hrun |].
    cbn [goroutines surfaced main] in Hgs, Hsurf, Hmain.
    rewrite list_insert_insert_eq in Hgs. done.
Qed.

(** A goroutine that has been started can run to its end on its own. *)
Lemma probe_runs_to_exit f i ep s :
  goroutines s !! i = Some (mkGoroutine ep GCall) ->
  exists n s' r,
    run f (replicate n (TProbe i)) s = Some s' /\
    goroutines s' = <[i := mkGoroutine ep GExit]> (goroutines s) /\
    surfaced s' = (surfaced s ++ [r])%list /\
    Endpoint_of r = ep /\
    main s' = main s.
Proof.
  intros Hi. pose proof (lookup_lt_Some _ _ _ Hi) as Hlt.
  destruct (checkEndpoint_send f ep (world s)) as [[start p] w1] eqn:Hsend.
  destruct (checkEndpoint_wait ep start p w1) as [r w2] eqn:Hwait.
  pose proof (checkEndpoint_wait_clock _ _ _ _ _ _ Hwait) as (_ & _ & Hep & _).
  set (s2 := mkState w2 (wg s) (main s)
               (<[i := mkGoroutine ep (GPrint r (printResult r))]>
                  (goroutines s))
               (m_start s) (m_endpoints s) (calls s ++ [ep]) (surfaced s)).
  destruct (probe_prints_to_exit f i ep r (printResult r) s2)
    as (s' & Hrun & Hgs & Hsurf & Hmain).
  { cbn [s2 goroutines]. apply list_lookup_insert_eq. exact Hlt. }
  exists (S (S (S (length (printResult r))))), s', r.
  split_and!; try done.
  - rewrite !replicate_S in *. cbn [run step_tid].
    unfold step_goroutine at 1. rewrite Hi. cbn [g_pc g_ep]. rewrite Hsend.
    unfold step_goroutine at 1. cbn [goroutines].
    rewrite list_lookup_insert_eq by exact Hlt. cbn [g_pc g_ep world].
    rewrite Hwait. cbn [wg main goroutines m_start m_endpoints calls surfaced].
    rewrite list_insert_insert_eq. exact Hrun.
  - rewrite Hgs. cbn [s2 goroutines]. apply list_insert_insert_eq.
Qed.

(** X10: the order in which the results are printed is not fixed by the
    order of the endpoints: for any two endpoints there is a complete
    run that prints the result of the first before that of the second,
    and one that prints them the other way round. *)
Theorem results_in_either_order f start e1 e2 w :
  (exists sched s,
     run f sched (dispatch_init start [e1; e2] w) = Some s /\
     returned s = true /\
     map Endpoint_of (surfaced s) = [e1; e2]) /\
  (exists sched s,
     run f sched (dispatch_init start [e1; e2] w) = Some s /\
     returned s = true /\
     map Endpoint_of (surfaced s) = [e2; e1]).
Proof.
  assert (Horder : forall i j ea eb,
            (i = 0%nat /\ j = 1%nat /\ ea = e1 /\ eb = e2) \/
            (i = 1%nat /\ j = 0%nat /\ ea = e2 /\ eb = e1) ->
            exists sched s,
              run f sched (dispatch_init start [e1; e2] w) = Some s /\
              returned s = true /\
              map Endpoint_of (surfaced s) = [ea; eb]).
  { intros i j ea eb Hij.
    set (sA := mkState w (0 + 1 + 1) (MLoop [])
                 [mkGoroutine e1 GCall; mkGoroutine e2 GCall]
                 start [e1; e2] [] []).
    assert (HA : run f [TMain; TMain; TMain; TMain]
                   (dispatch_init start [e1; e2] w) = Some sA)
      by reflexivity.
    destruct (probe_runs_to_exit f i ea sA)
      as (n1 & sB & r1 & HB & HgB & HsB & Hr1 & HmB).
    { destruct Hij as [(-> & _ & -> & _) | (-> & _ & -> & _)]; reflexivity. }
    destruct (probe_runs_to_exit f j eb sB)
      as (n2 & sC & r2 & HC & HgC & HsC & Hr2 & HmC).
    { rewrite HgB.
      destruct Hij as [(-> & -> & _ & ->) | (-> & -> & _ & ->)]; reflexivity. }
    assert (HAC : run f ([TMain; TMain; TMain; TMain]
                         ++ replicate n1 (TProbe i)
                         ++ replicate n2 (TProbe j))%list
                    (dispatch_init start [e1; e2] w) = Some sC).
    { rewrite run_app, HA, run_app, HB. exact HC. }
    pose proof (dispatch_inv_run _ _ _ _ _ _ HAC) as Hinv.
    destruct (dispatch_terminates f sC Hinv) as (sched' & s & Hrun' & Hret).
    destruct (surfaced_grows_run f sched' sC s Hrun') as [more Hmore].
    eexists (_ ++ sched')%list, s. rewrite run_app, HAC.
    split_and!; try done.
    assert (Hall : run f (([TMain; TMain; TMain; TMain]
                           ++ replicate n1 (TProbe i)
                           ++ replicate n2 (TProbe j)) ++ sched')%list
                     (dispatch_init start [e1; e2] w) = Some s)
      by (rewrite run_app, HAC; exact Hrun').
    pose proof (dispatch_inv_run _ _ _ _ _ _ Hall) as Hinv'.
    destruct (run_constants _ _ _ _ Hall) as [Heps _].
    pose proof (returned_past_barrier s Hret) as Hpast.
    destruct (dispatch_inv_all_exited s Hinv' (past_barrier_todo s Hpast)
                (inv_barrier s Hinv' Hpast)) as (_ & _ & _ & Hperm).
    apply Permutation_length in Hperm.
    rewrite Heps, length_map, Hmore, HsC, HsB in Hperm.
    cbn [sA surfaced dispatch_init m_endpoints] in Hperm.
    rewrite !length_app in Hperm. cbn [length] in Hperm.
    destruct more; [| cbn [length] in Hperm; lia].
    rewrite Hmore, HsC, HsB, app_nil_r. cbn [sA surfaced app map].
    rewrite Hr1, Hr2. reflexivity. }
  split.
  - apply (Horder 0%nat 1%nat). left. done.
  - apply (Horder 1%nat 0%nat). right. done.
Qed.
